(** * empeggo: the mpg123 binding and its streaming reader

    A shallow embedding of [mpg123/mpg123.go].  The C library and the
    upstream [io.Reader] are outside the program: they are interfaces here
    (type classes).  The calls that cross the boundary and act on the handle,
    the upstream reader or the log are recorded, so that the order of feeds,
    polls and teardowns can be stated; the two calls that only fetch an
    error text, [mpg123_strerror] and [mpg123_plain_strerror], are made but
    not recorded. *)

From Stdlib Require Import ZArith Lia Init.Byte.
From stdpp Require Import base decidable list strings pretty gmap.

Local Open Scope Z_scope.
Local Open Scope string_scope.
Local Open Scope list_scope.

(** ** Machine integers

    cgo on the 64-bit targets: Go's [int] and [int64], C's [long] and
    [size_t] have 64 bits, C's [int] has 32.  A conversion keeps the low bits. *)

Definition wrap_unsigned (w z : Z) : Z := z mod 2 ^ w.
Definition wrap_signed (w z : Z) : Z := (z + 2 ^ (w - 1)) mod 2 ^ w - 2 ^ (w - 1).

Definition C_int : Z -> Z := wrap_signed 32.
Definition C_long : Z -> Z := wrap_signed 64.
Definition C_size_t : Z -> Z := wrap_unsigned 64.
Definition Go_int : Z -> Z := wrap_signed 64.
Definition Go_int64 : Z -> Z := wrap_signed 64.

(** [len(buf)] of a byte slice. *)
Definition len (buf : list byte) : Z := Z.of_nat (length buf).

(** ** Status codes and errors *)

(** The values of [enum mpg123_errors] the binding tells apart; the header
    [mpg123.h] is not part of the repository, every other value of the enum
    is [MPG123_ERR code]. *)
Inductive mpg123_errors :=
| MPG123_DONE
| MPG123_NEW_FORMAT
| MPG123_NEED_MORE
| MPG123_ERR (code : Z)
| MPG123_OK.

#[global] Instance mpg123_errors_eq_dec : EqDecision mpg123_errors.
Proof. solve_decision. Defined.

(** Go [error] values: the sentinel [io.EOF], the package's own [EOF]
    (a different value with the same text) and errors made from a message
    ([fmt.Errorf], or whatever else a reader returns). *)
Inductive error :=
| io_EOF
| EOF
| Errorf (msg : string).

#[global] Instance error_eq_dec : EqDecision error.
Proof. solve_decision. Defined.

(** Operands of the logger. *)
Inductive logval :=
| LString (s : string)
| LError (e : error)
| LInt (z : Z).

(** ** The outside world *)

(** The operations of libmpg123 the binding calls, on a handle state [H].
    [mpg123_read] reports a status and the byte count stored through
    [&done]; the decoded bytes land in the caller's buffer and are not part
    of any result of the Go code. *)
Class Libmpg123 (H : Type) := {
  mpg123_new : option string -> option H * Z;
  mpg123_plain_strerror : Z -> string;
  mpg123_delete : H -> H;
  mpg123_strerror : H -> string;
  mpg123_format_none : H -> mpg123_errors * H;
  mpg123_format_all : H -> mpg123_errors * H;
  mpg123_getformat : H -> (Z * Z * Z) * H;
  mpg123_format : H -> Z -> Z -> Z -> mpg123_errors * H;
  mpg123_open_feed : H -> mpg123_errors * H;
  mpg123_close : H -> mpg123_errors * H;
  mpg123_read : H -> Z -> (mpg123_errors * Z) * H;
  mpg123_feed : H -> list byte -> mpg123_errors * H
}.

(** [io.Reader]: asked to fill a buffer of [n] bytes, a reader stores some
    bytes at its front and returns their number and an error. *)
Class Reader (R : Type) := {
  io_Read : R -> Z -> (list byte * option error) * R
}.

(** Calls that leave the Go code, with what they were given and what came
    back. *)
Inductive call :=
| call_src_Read (size n : Z) (err : option error)
| call_mpg123_new (decoder : option string)
| call_mpg123_delete
| call_mpg123_format_none
| call_mpg123_format_all
| call_mpg123_getformat (rate channels encoding : Z)
| call_mpg123_format (rate channels encodings : Z)
| call_mpg123_open_feed (r : mpg123_errors)
| call_mpg123_close (r : mpg123_errors)
| call_mpg123_read (outmemsize : Z) (r : mpg123_errors) (done : Z)
| call_mpg123_feed (data : list byte) (r : mpg123_errors)
| call_log_Print (v : list logval)
| call_log_Printf (format : string) (v : list logval).

(** How a Go call ends: it returns, it panics, or the loop budget of the
    model ran out while it was still looping. *)
Inductive result (A : Type) :=
| Returns (a : A)
| Panics (msg : string)
| Spins.

Arguments Returns {A} a.
Arguments Panics {A} msg.
Arguments Spins {A}.

(** *** A state monad with panics *)

Definition M (St A : Type) : Type := St -> result A * St.

Definition ret {St A} (a : A) : M St A := fun st => (Returns a, st).

Definition bind {St A B} (m : M St A) (k : A -> M St B) : M St B :=
  fun st =>
    match m st with
    | (Returns a, st') => k a st'
    | (Panics msg, st') => (Panics msg, st')
    | (Spins, st') => (Spins, st')
    end.

Definition panic {St A} (msg : string) : M St A := fun st => (Panics msg, st).

Definition spin {St A} : M St A := fun st => (Spins, st).

Declare Scope go_scope.
Delimit Scope go_scope with go.
Notation "x <- c1 ;; c2" := (bind c1 (fun x => c2))
  (at level 20, c1 at level 99, c2 at level 200, only parsing) : go_scope.
Notation "' pat <- c1 ;; c2" := (bind c1 (fun x => let 'pat := x in c2))
  (at level 20, pat pattern, c1 at level 99, c2 at level 200, only parsing) : go_scope.
Notation "c1 ;; c2" := (bind c1 (fun _ => c2))
  (at level 100, c2 at level 200, only parsing, right associativity) : go_scope.
Local Open Scope go_scope.

(** [&buf[0]]: the address of the first element of a slice. *)
Definition first_elem {St} (buf : list byte) : M St unit :=
  match buf with
  | [] => panic "runtime error: index out of range [0] with length 0"
  | _ :: _ => ret tt
  end.

(** [buf[0:n]] of a buffer of capacity [cap] whose first [n] bytes are
    [front].  The count is the length of [front], so a reader that breaks
    its contract with a negative count has no counterpart here. *)
Definition slice_to {St} (cap : Z) (front : list byte) : M St (list byte) :=
  if decide (len front <= cap) then ret front
  else panic ("runtime error: slice bounds out of range [:" +:+ pretty (len front)
              +:+ "] with capacity " +:+ pretty cap).

Section Binding.

Context {H R : Type} {engine : Libmpg123 H} {upstream : Reader R}.

(** Contains a handle for an mpg123 decoder instance. *)
Record Decoder := { handle : H }.

(** What the two reference fields of a [DecoderReader] point to, and the
    calls made so far, oldest first. *)
Record Store := {
  decoder : Decoder;
  src : R;
  calls : list call
}.

(** The value fields of a [DecoderReader]; [decoder] and [src] live in the
    [Store]. *)
Record DecoderReader := {
  fps : Z;
  channels : Z;
  paranoid : bool
}.

Definition record (c : call) : M Store unit :=
  fun st => (Returns tt,
             {| decoder := decoder st; src := src st; calls := calls st ++ [c] |}).

(** A call into the library on the decoder's handle. *)
Definition on_handle {A} (f : H -> A * H) : M Store A :=
  fun st =>
    let '(a, h) := f (handle (decoder st)) in
    (Returns a,
     {| decoder := {| handle := h |}; src := src st; calls := calls st |}).

(** A call of the upstream reader's [Read]. *)
Definition on_src {A} (f : R -> A * R) : M Store A :=
  fun st =>
    let '(a, s) := f (src st) in
    (Returns a, {| decoder := decoder st; src := s; calls := calls st |}).

(** *** Decoder instance code *)

(** How [NewDecoder] ends.  With a handle it returns the decoder and no
    error.  With a null handle it fetches the text of the error code with
    [mpg123_plain_strerror], builds its error from that pointer and, on the
    way out, hands the same pointer to the deferred [C.free]: the string
    belongs to the library, so the program defines nothing from there on
    (glibc aborts) and no returned value is modelled. *)
Inductive NewDecoder_result :=
| Created (dec : Decoder)
| Frees_library_string (errstring : string).

(** Create a new mpg123 decoder instance.  There is no store yet: the
    result comes with the one recorded call made. *)
Definition NewDecoder (decoder : string) : NewDecoder_result * list call :=
  let arg := if decide (decoder <> "") then None else Some decoder in
  let '(mh, err) := mpg123_new arg in
  match mh with
  | None =>
      (Frees_library_string (mpg123_plain_strerror (C_int err)),
       [call_mpg123_new arg])
  | Some h => (Created {| handle := h |}, [call_mpg123_new arg])
  end.

(** Delete mpg123 decoder instance. *)
Definition Decoder_Delete : M Store unit :=
  on_handle (fun h => (tt, mpg123_delete h)) ;;
  record call_mpg123_delete.

(** The most recent error message of the decoder instance.  The call reads
    the handle and leaves it as it is; it is not recorded. *)
Definition Decoder_strerror : M Store string :=
  fun st => (Returns (mpg123_strerror (handle (decoder st))), st).

(** *** Output format code *)

(** Disable all decoder output formats. *)
Definition Decoder_FormatNone : M Store unit :=
  on_handle mpg123_format_none ;;
  record call_mpg123_format_none.

(** Enable all decoder output formats. *)
Definition Decoder_FormatAll : M Store unit :=
  on_handle mpg123_format_all ;;
  record call_mpg123_format_all.

(** Returns current output format. *)
Definition Decoder_GetFormat : M Store (Z * Z * Z) :=
  '(cRate, cChans, cEnc) <- on_handle mpg123_getformat ;;
  record (call_mpg123_getformat (C_long cRate) (C_int cChans) (C_int cEnc)) ;;
  ret (Go_int64 (C_long cRate), Go_int (C_int cChans), Go_int (C_int cEnc)).

(** Set the audio output format for decoder. *)
Definition Decoder_Format (rate channels encodings : Z) : M Store unit :=
  on_handle (fun h => mpg123_format h (C_long rate) (C_int channels) (C_int encodings)) ;;
  record (call_mpg123_format (C_long rate) (C_int channels) (C_int encodings)).

(** *** Input and decoding code *)

(** The error every failing call on an open handle is turned into. *)
Definition mpg123_error : M Store error :=
  s <- Decoder_strerror ;;
  ret (Errorf ("mpg123 error: " +:+ s)).

(** Prepare for direct feeding via Feed. *)
Definition Decoder_OpenFeed : M Store (option error) :=
  err <- on_handle mpg123_open_feed ;;
  record (call_mpg123_open_feed err) ;;
  if decide (err <> MPG123_OK) then e <- mpg123_error ;; ret (Some e)
  else ret None.

(** Close input file if one was opened by mpg123. *)
Definition Decoder_Close : M Store (option error) :=
  err <- on_handle mpg123_close ;;
  record (call_mpg123_close err) ;;
  if decide (err <> MPG123_OK) then e <- mpg123_error ;; ret (Some e)
  else ret None.

(** The C call both readers make: [mpg123_read] into a buffer of
    [outmemsize] bytes, the count coming back as a [size_t]. *)
Definition C_mpg123_read (outmemsize : Z) : M Store (mpg123_errors * Z) :=
  '(err, done) <- on_handle (fun h => mpg123_read h (C_size_t outmemsize)) ;;
  record (call_mpg123_read (C_size_t outmemsize) err (C_size_t done)) ;;
  ret (err, C_size_t done).

(** Read data from stream and decode into buf.  Returns number of bytes
    decoded. *)
Definition Decoder_Read (buf : list byte) : M Store (Z * option error) :=
  first_elem buf ;;
  '(err, done) <- C_mpg123_read (len buf) ;;
  if decide (err = MPG123_DONE) then ret (Go_int done, Some EOF)
  else if decide (err <> MPG123_OK) then
    e <- mpg123_error ;; ret (Go_int done, Some e)
  else ret (Go_int done, None).

(** Feed bytes into the decoder. *)
Definition Decoder_Feed (buf : list byte) : M Store (option error) :=
  first_elem buf ;;
  err <- on_handle (fun h => mpg123_feed h buf) ;;
  record (call_mpg123_feed buf err) ;;
  if decide (err <> MPG123_OK) then e <- mpg123_error ;; ret (Some e)
  else ret None.

(** *** DecoderReader *)

(** Paranoid mode shuts off the decoder on a non-EOF error. *)
Definition Paranoid (dr : DecoderReader) : DecoderReader :=
  {| fps := fps dr; channels := channels dr; paranoid := true |}.

(** Nuke kills our DecoderReader appropriately. *)
Definition Nuke : M Store unit :=
  Decoder_Close ;;
  Decoder_Delete.

(** The feed half of one round of the loop in [Read]: [inl] is a value
    [Read] returns at once, [inr err] goes on to the read half with [err]
    as the loop's variable stands. *)
Definition feed_data (dr : DecoderReader)
  : M Store ((Z * option error) + option error) :=
  '(front, err) <- on_src (fun s => io_Read s (64 * 1024)) ;;
  record (call_src_Read (64 * 1024) (len front) err) ;;
  match err with
  | None =>
      buf_n <- slice_to (64 * 1024) front ;;
      err <- Decoder_Feed buf_n ;;
      match err with
      | Some e =>
          record (call_log_Print [LString "Error while feeding to mpg123: "; LError e]) ;;
          ret (inr err)
      | None => ret (inr err)
      end
  | Some e =>
      if decide (e <> io_EOF) then
        (if paranoid dr then Nuke else ret tt) ;;
        ret (inl (0, err))
      else if paranoid dr then
        Nuke ;;
        ret (inl (0, Some io_EOF))
      else ret (inr err)
  end.

(** The cases [MPG123_NEW_FORMAT], [MPG123_OK], [MPG123_DONE] and
    [MPG123_NEED_MORE] all fall through to this: [Some] is returned by
    [Read], [None] starts the next round. *)
Definition produced (done : Z) (err : option error)
  : M Store (option (Z * option error)) :=
  if decide (done > 0) then ret (Some (Go_int done, None))
  else if decide (err = Some io_EOF) then
    Nuke ;;
    ret (Some (Go_int done, Some io_EOF))
  else ret None.

(** The [switch] on the status of the poll; a status without a case
    leaves the switch with nothing done. *)
Definition switch_msg (msg : mpg123_errors) (done : Z) (err : option error)
  : M Store (option (Z * option error)) :=
  match msg with
  | MPG123_NEW_FORMAT =>
      '(rate, channel, encoding) <- Decoder_GetFormat ;;
      record (call_log_Printf
                "New format with rate: %d, channels: %d, encoding: %d"
                [LInt rate; LInt channel; LInt encoding]) ;;
      produced done err
  | MPG123_OK => produced done err
  | MPG123_DONE => produced done err
  | MPG123_NEED_MORE => produced done err
  | MPG123_ERR _ => ret None
  end.

(** The read half of one round. *)
Definition read_output (bytes : list byte) (err : option error)
  : M Store (option (Z * option error)) :=
  first_elem bytes ;;
  '(msg, done) <- C_mpg123_read (len bytes) ;;
  switch_msg msg done err.

(** One round of the loop. *)
Definition round (dr : DecoderReader) (bytes : list byte)
  : M Store (option (Z * option error)) :=
  fed <- feed_data dr ;;
  match fed with
  | inl r => ret (Some r)
  | inr err => read_output bytes err
  end.

(** Read duck-types DecoderReader into io.Reader.  The [for] loop has no
    bound; [rounds] is the budget of the model. *)
Fixpoint DecoderReader_Read (rounds : nat) (dr : DecoderReader) (bytes : list byte)
  : M Store (Z * option error) :=
  match rounds with
  | O => spin
  | S k =>
      r <- round dr bytes ;;
      match r with
      | Some v => ret v
      | None => DecoderReader_Read k dr bytes
      end
  end.

(** DecoderReader gives you an io.Reader for streaming-decoding; the
    adapter is bound to [source]. *)
Definition Decoder_DecoderReader (source : R) (fps channels encoding : Z)
  : M Store DecoderReader :=
  Decoder_FormatNone ;;
  Decoder_Format (Go_int64 fps) channels encoding ;;
  on_src (fun _ => (tt, source)) ;;
  ret {| fps := fps; channels := channels; paranoid := false |}.

(** MonoDecoderReader is an alias for a stream known to be mono-channeled. *)
Definition Decoder_MonoDecoderReader (source : R) (fps encoding : Z)
  : M Store DecoderReader :=
  Decoder_DecoderReader source fps 1 encoding.

End Binding.

Arguments Decoder H : clear implicits.
Arguments NewDecoder_result H : clear implicits.
Arguments Created {H} dec.
Arguments Frees_library_string {H} errstring.
Arguments Store H R : clear implicits.

(** ** Opening files, and the library's start

    The calls of libmpg123 that the streaming path does not make.  They are
    not part of the record of calls. *)

Class Libmpg123_files (H : Type) := {
  mpg123_init : mpg123_errors;
  mpg123_open : H -> string -> mpg123_errors * H;
  mpg123_open_fd : H -> Z -> mpg123_errors * H
}.

(** What C reads of [C.CString(s)]: the bytes before the first NUL. *)
Fixpoint C_string (s : string) : string :=
  match s with
  | EmptyString => EmptyString
  | String c rest =>
      if decide (c = Ascii.zero) then EmptyString else String c (C_string rest)
  end.

Section Files.

Context {H R : Type} {engine : Libmpg123 H} {files : Libmpg123_files H}.

(** Initialize the mpg123 library when package is loaded. *)
Definition init : result unit :=
  if decide (mpg123_init <> MPG123_OK) then Panics "failed to initialize mpg123"
  else Returns tt.

(** Open an mp3 file for decoding using a filename. *)
Definition Decoder_Open (file : string) : M (Store H R) (option error) :=
  err <- on_handle (fun h => mpg123_open h (C_string file)) ;;
  if decide (err <> MPG123_OK) then
    s <- Decoder_strerror ;;
    ret (Some (Errorf ("Error opening " +:+ file +:+ ": " +:+ s +:+ String (Ascii.ascii_of_nat 10) "")))
  else ret None.

(** Bind an open *os.File for decoding; [fd] is what [f.Fd()] gives. *)
Definition Decoder_OpenFile (fd : Z) : M (Store H R) (option error) :=
  err <- on_handle (fun h => mpg123_open_fd h (C_int fd)) ;;
  if decide (err <> MPG123_OK) then
    s <- Decoder_strerror ;;
    ret (Some (Errorf ("Error attaching file: " +:+ s)))
  else ret None.

End Files.

(** ** Test doubles

    A scripted engine and a scripted reader, to run the binding on. *)

(** The fake engine answers [mpg123_read] and [mpg123_feed] from two
    scripts and repeats a fixed answer once a script is used up; it keeps
    the format table as the list of formats switched on, and counts the
    closes and deletes it was asked for. *)
Record fake_engine := {
  reads : list (mpg123_errors * Z);
  reads_then : mpg123_errors * Z;
  feeds : list mpg123_errors;
  feeds_then : mpg123_errors;
  close_status : mpg123_errors;
  formats : list (Z * Z * Z);
  fed : list byte;
  closes : nat;
  deletes : nat
}.

Definition fake_read (h : fake_engine) : (mpg123_errors * Z) * fake_engine :=
  match reads h with
  | [] => (reads_then h, h)
  | r :: rs =>
      (r, {| reads := rs; reads_then := reads_then h; feeds := feeds h;
             feeds_then := feeds_then h; close_status := close_status h;
             formats := formats h; fed := fed h; closes := closes h;
             deletes := deletes h |})
  end.

Definition fake_feed (h : fake_engine) (data : list byte)
  : mpg123_errors * fake_engine :=
  match feeds h with
  | [] =>
      (feeds_then h,
       {| reads := reads h; reads_then := reads_then h; feeds := [];
          feeds_then := feeds_then h; close_status := close_status h;
          formats := formats h; fed := fed h ++ data; closes := closes h;
          deletes := deletes h |})
  | r :: rs =>
      (r, {| reads := reads h; reads_then := reads_then h; feeds := rs;
             feeds_then := feeds_then h; close_status := close_status h;
             formats := formats h; fed := fed h ++ data; closes := closes h;
             deletes := deletes h |})
  end.

Definition fake_set_formats (fs : list (Z * Z * Z)) (h : fake_engine) : fake_engine :=
  {| reads := reads h; reads_then := reads_then h; feeds := feeds h;
     feeds_then := feeds_then h; close_status := close_status h;
     formats := fs; fed := fed h; closes := closes h; deletes := deletes h |}.

Definition fake_close (h : fake_engine) : mpg123_errors * fake_engine :=
  (close_status h,
   {| reads := reads h; reads_then := reads_then h; feeds := feeds h;
      feeds_then := feeds_then h; close_status := close_status h;
      formats := formats h; fed := fed h; closes := S (closes h);
      deletes := deletes h |}).

Definition fake_delete (h : fake_engine) : fake_engine :=
  {| reads := reads h; reads_then := reads_then h; feeds := feeds h;
     feeds_then := feeds_then h; close_status := close_status h;
     formats := formats h; fed := fed h; closes := closes h;
     deletes := S (deletes h) |}.

(** A fresh fake engine with the given scripts. *)
Definition fake_new (rs : list (mpg123_errors * Z)) (r : mpg123_errors * Z)
    (fs : list mpg123_errors) : fake_engine :=
  {| reads := rs; reads_then := r; feeds := fs; feeds_then := MPG123_OK;
     close_status := MPG123_OK; formats := []; fed := []; closes := 0;
     deletes := 0 |}.

#[global] Instance fake_Libmpg123 : Libmpg123 fake_engine := {
  mpg123_new name :=
    match name with
    | None | Some "" => (Some (fake_new [] (MPG123_NEED_MORE, 0) []), 0)
    | Some _ => (None, 1)
    end;
  mpg123_plain_strerror code := "fake engine: no such decoder";
  mpg123_delete := fake_delete;
  mpg123_strerror h := "fake engine: refused";
  mpg123_format_none h := (MPG123_OK, fake_set_formats [] h);
  mpg123_format_all h := (MPG123_OK, h);
  mpg123_getformat h := (default (0, 0, 0) (head (formats h)), h);
  mpg123_format h rate channels encodings :=
    (MPG123_OK, fake_set_formats ((rate, channels, encodings) :: formats h) h);
  mpg123_open_feed h := (MPG123_OK, h);
  mpg123_close := fake_close;
  mpg123_read h outmemsize := fake_read h;
  mpg123_feed := fake_feed
}.

(** The scripted reader hands out its answers in order and reports
    [io.EOF] without bytes from then on. *)
#[global] Instance script_Reader : Reader (list (list byte * option error)) := {
  io_Read s size :=
    match s with
    | [] => (([], Some io_EOF), [])
    | r :: s' => (r, s')
    end
}.

(** The store a test starts from. *)
Definition fake_store (h : fake_engine) (s : list (list byte * option error))
  : Store fake_engine (list (list byte * option error)) :=
  {| decoder := {| handle := h |}; src := s; calls := [] |}.

Definition reader (p : bool) : DecoderReader :=
  {| fps := 44100; channels := 1; paranoid := p |}.

(** Modelled from the spec: the engine's table of allowed output formats
    ("current allowed output formats (set, mutable)"), which libmpg123 keeps
    inside the handle.  Disabling all formats empties it and setting a
    format adds that one format ("pure format-table mutation/query"). *)
Class FormatTable (H : Type) `{!Libmpg123 H} := {
  allowed : H -> gset (Z * Z * Z);
  allowed_format_none (h : H) :
    allowed (snd (mpg123_format_none h)) = ∅;
  allowed_format (h : H) (rate channels encodings : Z) :
    allowed (snd (mpg123_format h rate channels encodings))
    = {[ (rate, channels, encodings) ]} ∪ allowed h
}.

#[global] Instance fake_FormatTable : FormatTable fake_engine.
Proof.
  refine {| allowed h := list_to_set (formats h) |}.
  - intros h. reflexivity.
  - intros h rate channels encodings. reflexivity.
Defined.

(** *** Reading the record of calls *)

Definition is_mpg123_read (c : call) : bool :=
  match c with call_mpg123_read _ _ _ => true | _ => false end.

Definition is_mpg123_delete (c : call) : bool :=
  match c with call_mpg123_delete => true | _ => false end.

Definition is_mpg123_close (c : call) : bool :=
  match c with call_mpg123_close _ => true | _ => false end.

(** The statuses the switch in [DecoderReader.Read] has a case for. *)
Definition handled (msg : mpg123_errors) : bool :=
  match msg with MPG123_ERR _ => false | _ => true end.

(** What [Nuke] leaves: the two calls it makes on a handle [h], and the
    handle afterwards. *)
Definition nuke_calls `{!Libmpg123 H} (h : H) : list call :=
  [call_mpg123_close (fst (mpg123_close h)); call_mpg123_delete].

Definition nuked `{!Libmpg123 H} (h : H) : H :=
  mpg123_delete (snd (mpg123_close h)).

(** The error [Decoder.Feed] makes of a status [r] on a handle [h]. *)
Definition feed_error `{!Libmpg123 H} (r : mpg123_errors) (h : H) : option error :=
  if decide (r <> MPG123_OK) then Some (Errorf ("mpg123 error: " +:+ mpg123_strerror h))
  else None.

(** What the case [MPG123_NEW_FORMAT] adds to the record on a handle [h]:
    the format is asked for and logged. *)
Definition new_format_calls `{!Libmpg123 H} (h : H) : list call :=
  let '(cRate, cChans, cEnc) := fst (mpg123_getformat h) in
  [call_mpg123_getformat (C_long cRate) (C_int cChans) (C_int cEnc);
   call_log_Printf "New format with rate: %d, channels: %d, encoding: %d"
     [LInt (Go_int64 (C_long cRate)); LInt (Go_int (C_int cChans));
      LInt (Go_int (C_int cEnc))]].

(** The store once the upstream reader has answered [front] and [err] and
    become [s']. *)
Definition asked {H R : Type} (st : Store H R) (front : list byte)
    (err : option error) (s' : R) : Store H R :=
  {| decoder := decoder st;
     src := s';
     calls := calls st ++ [call_src_Read (64 * 1024) (len front) err] |}.

(** The store once bytes were fed: the feed call, and a log line when the
    feed reported a failure. *)
Definition fed_store `{!Libmpg123 H} {R : Type} (st : Store H R)
    (front : list byte) (s' : R) (r : mpg123_errors) (h' : H) : Store H R :=
  {| decoder := {| handle := h' |};
     src := s';
     calls := calls (asked st front None s')
              ++ call_mpg123_feed front r
              :: match feed_error r h' with
                 | Some e => [call_log_Print
                                [LString "Error while feeding to mpg123: "; LError e]]
                 | None => []
                 end |}.

(** The store after a poll into a buffer of [size] bytes that reported
    [msg] and [done] and left the handle as [h]. *)
Definition polled {H R : Type} (st : Store H R) (size : Z) (msg : mpg123_errors)
    (done : Z) (h : H) : Store H R :=
  {| decoder := {| handle := h |};
     src := src st;
     calls := calls st ++ [call_mpg123_read (C_size_t size) msg (C_size_t done)] |}.

(** The store once the switch has taken note of the status: the case
    [MPG123_NEW_FORMAT] asks for the format and logs it, the others add
    nothing. *)
Definition noted `{!Libmpg123 H} {R : Type} (msg : mpg123_errors) (st : Store H R)
  : Store H R :=
  match msg with
  | MPG123_NEW_FORMAT =>
      {| decoder := {| handle := snd (mpg123_getformat (handle (decoder st))) |};
         src := src st;
         calls := calls st ++ new_format_calls (handle (decoder st)) |}
  | _ => st
  end.

(** The store after [Nuke]. *)
Definition nuked_store `{!Libmpg123 H} {R : Type} (st : Store H R) : Store H R :=
  {| decoder := {| handle := nuked (handle (decoder st)) |};
     src := src st;
     calls := calls st ++ nuke_calls (handle (decoder st)) |}.

(** A computation only ever adds to the record of calls. *)
Definition grows {H R A : Type} (m : M (Store H R) A) : Prop :=
  forall st, exists more : list call, calls (snd (m st)) = calls st ++ more.

(** The fake engine opens every file but the one without a name, and no
    descriptor below zero. *)
#[global] Instance fake_Libmpg123_files : Libmpg123_files fake_engine := {
  mpg123_init := MPG123_OK;
  mpg123_open h path :=
    (if decide (path = "") then MPG123_ERR (-1) else MPG123_OK, h);
  mpg123_open_fd h fd := (if decide (fd < 0) then MPG123_ERR (-1) else MPG123_OK, h)
}.

Definition is_mpg123_feed (c : call) : bool :=
  match c with call_mpg123_feed _ _ => true | _ => false end.

(** A call that leaves the handle open. *)
Definition quiet (c : call) : bool :=
  negb (is_mpg123_close c || is_mpg123_delete c).

(** The calls [DecoderReader.Read] records on a caller's buffer [bytes]: the
    upstream reader is asked for 64 KiB, what is fed has between one byte
    and 64 KiB, a poll offers the whole of the caller's buffer; the format
    may be queried, the handle closed and deleted, lines logged.  Nothing
    creates or opens a handle or touches the format table. *)
Definition streaming_call (bytes : list byte) (c : call) : bool :=
  match c with
  | call_src_Read size _ _ => bool_decide (size = 65536)
  | call_mpg123_feed data _ => bool_decide (0 < len data <= 65536)
  | call_mpg123_read outmemsize _ done =>
      bool_decide (outmemsize = C_size_t (len bytes) /\ 0 <= done < 2 ^ 64)
  | call_mpg123_getformat _ _ _ => true
  | call_mpg123_close _ => true
  | call_mpg123_delete => true
  | call_log_Print _ => true
  | call_log_Printf _ _ => true
  | call_mpg123_new _ => false
  | call_mpg123_format_none => false
  | call_mpg123_format_all => false
  | call_mpg123_format _ _ _ => false
  | call_mpg123_open_feed _ => false
  end.

(** A run that turned the status [answer.1] of one engine call into a Go
    error, leaving the handle as [answer.2]: no error for OK, an error that
    is neither end-of-stream value for anything else. *)
Definition reports {H R : Type} (run : result (option error) * Store H R)
    (answer : mpg123_errors * H) : Prop :=
  exists err,
    fst run = Returns err
    /\ (err = None <-> fst answer = MPG123_OK)
    /\ err <> Some EOF
    /\ err <> Some io_EOF
    /\ handle (decoder (snd run)) = snd answer.

Definition is_src_Read (c : call) : bool :=
  match c with call_src_Read _ _ _ => true | _ => false end.

(** The calls of the read half of a round: those of [streaming_call] that
    neither ask upstream nor feed. *)
Definition polling_call (bytes : list byte) (c : call) : bool :=
  streaming_call bytes c && negb (is_src_Read c) && negb (is_mpg123_feed c).

(** The handle once the builder has restricted the formats. *)
Definition restricted `{!Libmpg123 H} (h : H) (fps channels encoding : Z) : H :=
  snd (mpg123_format (snd (mpg123_format_none h))
         (C_long (Go_int64 fps)) (C_int channels) (C_int encoding)).

(** The store the builder leaves. *)
Definition built `{!Libmpg123 H} {R : Type} (st : Store H R) (source : R)
    (fps channels encoding : Z) : Store H R :=
  {| decoder := {| handle := restricted (handle (decoder st)) fps channels encoding |};
     src := source;
     calls := calls st
              ++ [call_mpg123_format_none;
                  call_mpg123_format (C_long (Go_int64 fps)) (C_int channels)
                    (C_int encoding)] |}.

(** A computation adds only calls that satisfy [P] to the record. *)
Definition adds {H R A : Type} (P : call -> bool) (m : M (Store H R) A) : Prop :=
  forall st, exists more : list call,
    calls (snd (m st)) = calls st ++ more /\ forallb P more = true.

(** What a poll with status [msg] adds to the record on a handle [h]. *)
Definition noted_calls_of `{!Libmpg123 H} (msg : mpg123_errors) (h : H) : list call :=
  match msg with
  | MPG123_NEW_FORMAT => new_format_calls h
  | _ => []
  end.

(** *** Scenarios *)

(** A caller's buffer of four bytes. *)
Definition four_bytes : list byte := ["0"; "0"; "0"; "0"]%byte.

(** An upstream reader that has nothing left: every read reports [io.EOF]. *)
Definition drained : list (list byte * option error) := [].

(** An upstream reader whose connection broke. *)
Definition broken : list (list byte * option error) :=
  [([], Some (Errorf "connection reset by peer"))].

(** An upstream reader with one chunk of three bytes. *)
Definition one_chunk : list (list byte * option error) :=
  [(["I"; "D"; "3"]%byte, None)].

(** An engine that still has four decoded bytes to hand out. *)
Definition engine_pending : fake_engine := fake_new [(MPG123_OK, 4)] (MPG123_DONE, 0) [].

(** An engine with nothing left to hand out. *)
Definition engine_empty : fake_engine := fake_new [] (MPG123_DONE, 0) [].

(** An engine whose last three bytes come with DONE. *)
Definition engine_tail : fake_engine := fake_new [(MPG123_DONE, 3)] (MPG123_DONE, 0) [].

(** An engine that fails every poll. *)
Definition engine_failing : fake_engine := fake_new [] (MPG123_ERR (-1), 0) [].

(** An engine that refuses the first feed and then has four bytes. *)
Definition engine_refusing : fake_engine :=
  fake_new [(MPG123_OK, 4)] (MPG123_DONE, 0) [MPG123_ERR (-1)].

(** An upstream reader that keeps delivering chunks. *)
Definition two_chunks : list (list byte * option error) :=
  [(["I"; "D"; "3"]%byte, None); (["I"; "D"; "3"]%byte, None)].

(** An upstream reader that answers without bytes and without an error. *)
Definition idle : list (list byte * option error) := [([], None)].

(** An upstream reader whose last bytes come together with [io.EOF]. *)
Definition last_bytes : list (list byte * option error) :=
  [(["T"; "A"; "G"]%byte, Some io_EOF)].

(** An engine that needs a second feed before it has four bytes. *)
Definition engine_slow : fake_engine :=
  fake_new [(MPG123_NEED_MORE, 0); (MPG123_OK, 4)] (MPG123_DONE, 0) [].

(** * Properties *)

(** ** Machine integers *)

Lemma C_size_t_range (z : Z) : 0 <= C_size_t z < 2 ^ 64.
Proof. unfold C_size_t, wrap_unsigned. apply Z.mod_pos_bound. lia. Qed.

Lemma C_size_t_small (z : Z) : 0 <= z < 2 ^ 64 -> C_size_t z = z.
Proof. intros Hz. unfold C_size_t, wrap_unsigned. apply Z.mod_small. lia. Qed.

Lemma wrap_signed_small (w z : Z) :
  0 < w -> - 2 ^ (w - 1) <= z < 2 ^ (w - 1) -> wrap_signed w z = z.
Proof.
  intros Hw Hz. unfold wrap_signed.
  assert (E : 2 ^ w = 2 * 2 ^ (w - 1)).
  { replace w with (Z.succ (w - 1)) at 1 by lia. apply Z.pow_succ_r. lia. }
  rewrite Z.mod_small; lia.
Qed.

Lemma Go_int_small (z : Z) : - 2 ^ 63 <= z < 2 ^ 63 -> Go_int z = z.
Proof. intros Hz. apply wrap_signed_small; simpl; lia. Qed.

Lemma C_int_small (z : Z) : - 2 ^ 31 <= z < 2 ^ 31 -> C_int z = z.
Proof. intros Hz. apply wrap_signed_small; simpl; lia. Qed.

(** A count that fits Go's [int] comes through both conversions unchanged. *)
Lemma Go_int_of_size_t (done : Z) :
  0 <= done < 2 ^ 63 -> Go_int (C_size_t done) = done.
Proof.
  intros Hd. rewrite C_size_t_small by lia. apply Go_int_small. lia.
Qed.

(** An unsigned count that is not positive is zero. *)
Lemma size_t_not_positive (done : Z) :
  ~ C_size_t done > 0 -> C_size_t done = 0.
Proof. pose proof (C_size_t_range done). lia. Qed.

Create HintDb grows.

Create HintDb grows.

(** ** Running the binding *)

Section Runs.

Context {H R : Type} {engine : Libmpg123 H} {upstream : Reader R}.

Implicit Types (st : Store H R) (dr : DecoderReader) (bytes buf : list byte).

Ltac tidy := simpl; rewrite <- ?List.app_assoc; simpl; try reflexivity.

(** [Nuke] closes, then deletes, whatever the close reports. *)
Lemma Nuke_run st : Nuke st = (Returns tt, nuked_store st).
Proof.
  unfold Nuke, Decoder_Close, Decoder_Delete, mpg123_error, Decoder_strerror,
    nuked_store, nuked, nuke_calls, bind, on_handle, record, ret.
  destruct (mpg123_close (handle (decoder st))) as [r h] eqn:E. simpl.
  destruct (decide (r <> MPG123_OK)); tidy.
Qed.

(** An upstream error other than [io.EOF] ends [Read] in the feed half. *)
Lemma feed_data_error dr st front e s' :
  io_Read (src st) (64 * 1024) = (front, Some e, s') ->
  e <> io_EOF ->
  feed_data dr st
  = (Returns (inl (0, Some e)),
     if paranoid dr then nuked_store (asked st front (Some e) s')
     else asked st front (Some e) s').
Proof.
  intros Hsrc He. unfold feed_data, bind, on_src, record, ret.
  rewrite Hsrc. simpl.
  destruct (decide (e <> io_EOF)) as [_|[]]; [|assumption].
  destruct (paranoid dr); [rewrite Nuke_run|]; reflexivity.
Qed.

(** On [io.EOF] from upstream the feed half ends [Read] when the reader is
    paranoid, and goes on to the read half otherwise. *)
Lemma feed_data_eof dr st front s' :
  io_Read (src st) (64 * 1024) = (front, Some io_EOF, s') ->
  feed_data dr st
  = if paranoid dr then
      (Returns (inl (0, Some io_EOF)), nuked_store (asked st front (Some io_EOF) s'))
    else (Returns (inr (Some io_EOF)), asked st front (Some io_EOF) s').
Proof.
  intros Hsrc. unfold feed_data, bind, on_src, record, ret.
  rewrite Hsrc. simpl.
  destruct (decide (io_EOF <> io_EOF)) as [Hne|_]; [destruct Hne; reflexivity|].
  destruct (paranoid dr); [rewrite Nuke_run|]; reflexivity.
Qed.

(** Bytes from upstream are fed; what the feed reports is logged at most. *)
Lemma feed_data_fed dr st front s' r h' :
  io_Read (src st) (64 * 1024) = (front, None, s') ->
  front <> [] ->
  len front <= 64 * 1024 ->
  mpg123_feed (handle (decoder st)) front = (r, h') ->
  feed_data dr st = (Returns (inr (feed_error r h')), fed_store st front s' r h').
Proof.
  intros Hsrc Hne Hlen Hfeed.
  unfold feed_data, Decoder_Feed, mpg123_error, Decoder_strerror, slice_to,
    first_elem, fed_store, asked, bind, on_handle, on_src, record, ret.
  rewrite Hsrc. simpl.
  destruct (decide (len front <= 64 * 1024)) as [_|Hn]; [|destruct (Hn Hlen)].
  simpl. destruct front as [|b front]; [destruct Hne; reflexivity|].
  simpl. rewrite Hfeed. unfold feed_error.
  destruct (decide (r <> MPG123_OK)); tidy.
Qed.

(** The read half on a buffer with room: one [mpg123_read], then the switch. *)
Lemma read_output_run bytes err st msg done h' :
  bytes <> [] ->
  mpg123_read (handle (decoder st)) (C_size_t (len bytes)) = (msg, done, h') ->
  read_output bytes err st
  = switch_msg msg (C_size_t done) err (polled st (len bytes) msg done h').
Proof.
  intros Hne Hread. unfold read_output, C_mpg123_read, first_elem.
  destruct bytes as [|b bytes]; [destruct Hne; reflexivity|].
  unfold bind at 1 2 3. unfold on_handle, record, ret at 1 2. rewrite Hread.
  reflexivity.
Qed.

(** The read half on an empty buffer stops at [&bytes[0]]. *)
Lemma read_output_empty err st :
  read_output [] err st
  = (Panics "runtime error: index out of range [0] with length 0", st).
Proof. reflexivity. Qed.

(** What [produced] does with the count of a poll. *)
Lemma produced_run done err st :
  produced done err st
  = if decide (done > 0) then (Returns (Some (Go_int done, None)), st)
    else if decide (err = Some io_EOF) then
      (Returns (Some (Go_int done, Some io_EOF)), nuked_store st)
    else (Returns None, st).
Proof.
  unfold produced. destruct (decide (done > 0)); [reflexivity|].
  destruct (decide (err = Some io_EOF)); [|reflexivity].
  unfold bind. rewrite Nuke_run. reflexivity.
Qed.

(** The switch, for a status it has a case for. *)
Lemma switch_msg_handled msg done err st :
  handled msg = true ->
  switch_msg msg done err st = produced done err (noted msg st).
Proof.
  intros Hh. destruct msg; try reflexivity; [|discriminate Hh].
  unfold switch_msg, noted, Decoder_GetFormat, new_format_calls, bind,
    on_handle, record, ret.
  destruct (mpg123_getformat (handle (decoder st))) as [[[r c] e] h]. tidy.
Qed.

(** The switch, for any other status: nothing is returned, nothing is done. *)
Lemma switch_msg_unhandled msg done err st :
  handled msg = false -> switch_msg msg done err st = (Returns None, st).
Proof. intros Hh. destruct msg; try discriminate Hh. reflexivity. Qed.

(** *** The record only grows *)

Lemma grows_ret {A} (a : A) : grows (H:=H) (R:=R) (ret a).
Proof. intros st. exists []. simpl. rewrite app_nil_r. reflexivity. Qed.

Lemma grows_panic {A} msg : grows (H:=H) (R:=R) (A:=A) (panic msg).
Proof. intros st. exists []. simpl. rewrite app_nil_r. reflexivity. Qed.

Lemma grows_spin {A} : grows (H:=H) (R:=R) (A:=A) spin.
Proof. intros st. exists []. simpl. rewrite app_nil_r. reflexivity. Qed.

Lemma grows_record c : grows (H:=H) (R:=R) (record c).
Proof. intros st. exists [c]. reflexivity. Qed.

Lemma grows_on_handle {A} (f : H -> A * H) : grows (R:=R) (on_handle f).
Proof.
  intros st. exists []. unfold on_handle. destruct (f _). simpl.
  rewrite app_nil_r. reflexivity.
Qed.

Lemma grows_on_src {A} (f : R -> A * R) : grows (H:=H) (on_src f).
Proof.
  intros st. exists []. unfold on_src. destruct (f _). simpl.
  rewrite app_nil_r. reflexivity.
Qed.

Lemma grows_bind {A B} (m : M (Store H R) A) (k : A -> M (Store H R) B) :
  grows m -> (forall a, grows (k a)) -> grows (bind m k).
Proof.
  intros Hm Hk st. unfold bind. destruct (Hm st) as [more1 E1].
  destruct (m st) as [[a|msg|] st1]; simpl in *.
  - destruct (Hk a st1) as [more2 E2]. exists (more1 ++ more2).
    rewrite E2, E1, List.app_assoc. reflexivity.
  - exists more1. assumption.
  - exists more1. assumption.
Qed.

Lemma grows_Nuke : grows (H:=H) (R:=R) Nuke.
Proof. intros st. rewrite Nuke_run. eexists. reflexivity. Qed.

#[local] Hint Resolve grows_ret grows_panic grows_spin grows_record
  grows_on_handle grows_on_src grows_Nuke : grows.

(** Takes a computation apart along its binds and branches. *)
Ltac grow :=
  repeat first
    [ progress auto with grows
    | apply grows_bind; [|intros ?]
    | match goal with
      | |- grows (match ?x with _ => _ end) => destruct x
      end ].

Lemma grows_Decoder_Feed buf : grows (H:=H) (R:=R) (Decoder_Feed buf).
Proof.
  unfold Decoder_Feed, mpg123_error, Decoder_strerror, first_elem. grow.
  intros st. exists []. simpl. rewrite app_nil_r. reflexivity.
Qed.

Lemma grows_Decoder_GetFormat : grows (H:=H) (R:=R) Decoder_GetFormat.
Proof. unfold Decoder_GetFormat. grow. Qed.

#[local] Hint Resolve grows_Decoder_Feed grows_Decoder_GetFormat : grows.

Lemma grows_feed_data dr : grows (R:=R) (feed_data dr).
Proof. unfold feed_data, slice_to. grow. Qed.

Lemma grows_switch_msg msg done err : grows (H:=H) (R:=R) (switch_msg msg done err).
Proof. unfold switch_msg, produced. grow. Qed.

#[local] Hint Resolve grows_feed_data grows_switch_msg : grows.

Lemma grows_read_output bytes err : grows (H:=H) (R:=R) (read_output bytes err).
Proof. unfold read_output, C_mpg123_read, first_elem. grow. Qed.

#[local] Hint Resolve grows_read_output : grows.

Lemma grows_round dr bytes : grows (round dr bytes).
Proof. unfold round. grow. Qed.

#[local] Hint Resolve grows_round : grows.

Lemma grows_Read rounds dr bytes : grows (DecoderReader_Read rounds dr bytes).
Proof. induction rounds as [|k IH]; simpl; grow. Qed.

#[local] Hint Resolve grows_Read : grows.

(** How a round goes on after its poll: the switch, and the next round when
    the switch returned nothing. *)
Lemma Read_polled rounds dr bytes st err st1 msg done h' :
  feed_data dr st = (Returns (inr err), st1) ->
  bytes <> [] ->
  mpg123_read (handle (decoder st1)) (C_size_t (len bytes)) = (msg, done, h') ->
  DecoderReader_Read (S rounds) dr bytes st
  = (r <- switch_msg msg (C_size_t done) err ;;
     match r with
     | Some v => ret v
     | None => DecoderReader_Read rounds dr bytes
     end) (polled st1 (len bytes) msg done h').
Proof.
  intros Hfeed Hne Hread. simpl. unfold round. unfold bind at 1 2.
  rewrite Hfeed, (read_output_run bytes err st1 msg done h' Hne Hread).
  reflexivity.
Qed.

(** A round that ends in the feed half. *)
Lemma Read_early rounds dr bytes st v st1 :
  feed_data dr st = (Returns (inl v), st1) ->
  DecoderReader_Read (S rounds) dr bytes st = (Returns v, st1).
Proof. intros Hfeed. simpl. unfold round, bind. rewrite Hfeed. reflexivity. Qed.

(** A status without a case in the switch: the round returns nothing, makes
    no call after the poll, and the loop goes round again. *)
Lemma Read_unhandled_status rounds dr bytes st err st1 msg done h' :
  feed_data dr st = (Returns (inr err), st1) ->
  bytes <> [] ->
  mpg123_read (handle (decoder st1)) (C_size_t (len bytes)) = (msg, done, h') ->
  handled msg = false ->
  DecoderReader_Read (S rounds) dr bytes st
  = DecoderReader_Read rounds dr bytes (polled st1 (len bytes) msg done h').
Proof.
  intros Hfeed Hne Hread Hh.
  rewrite (Read_polled rounds dr bytes st _ _ _ _ _ Hfeed Hne Hread).
  unfold bind. rewrite (switch_msg_unhandled _ _ _ _ Hh). reflexivity.
Qed.

(** ** The engine-level reader *)

(** C7: for every buffer, [Decoder.Read] either stops at [&buf[0]] (the
    buffer is empty, the engine is not called) or returns the count the
    engine stored: with the package's [EOF] when the engine reports DONE,
    with no error when it reports OK, and with an error that is neither
    [EOF] nor [io.EOF] for every other status. *)
Theorem Decoder_Read_by_status buf st msg done h' :
  mpg123_read (handle (decoder st)) (C_size_t (len buf)) = (msg, done, h') ->
  let n := Go_int (C_size_t done) in
  let run := Decoder_Read buf st in
  (0 <= done < 2 ^ 63 -> n = done)
  /\ match buf with
     | [] =>
         run = (Panics "runtime error: index out of range [0] with length 0", st)
     | _ :: _ =>
         calls (snd run)
         = calls st ++ [call_mpg123_read (C_size_t (len buf)) msg (C_size_t done)]
         /\ match msg with
            | MPG123_DONE => fst run = Returns (n, Some EOF)
            | MPG123_OK => fst run = Returns (n, None)
            | _ => exists e, fst run = Returns (n, Some e) /\ e <> EOF /\ e <> io_EOF
            end
     end.
Proof.
  intros Hread n run. split; [apply Go_int_of_size_t|].
  destruct buf as [|b buf]; [reflexivity|].
  subst n run.
  unfold Decoder_Read, C_mpg123_read, mpg123_error, Decoder_strerror,
    first_elem, bind, on_handle, record, ret.
  rewrite Hread.
  destruct msg; simpl; (split; [reflexivity|]); try reflexivity;
    (eexists; split; [reflexivity | split; discriminate]).
Qed.

(** ** The constructor *)

(** C9: a non-empty engine name never reaches the engine.  [NewDecoder]
    then calls [mpg123_new] once, with a null name, and ends as that call's
    answer decides: with the decoder around the handle returned, or, on a
    null handle, at the free of the text for the code stored.  The empty
    string is passed on as it is, and it is the only name ever passed on. *)
Theorem NewDecoder_engine_name (decoder : string) :
  decoder <> "" ->
  let ends (answer : option H * Z) : NewDecoder_result H :=
    match fst answer with
    | Some h => Created {| handle := h |}
    | None => Frees_library_string (mpg123_plain_strerror (C_int (snd answer)))
    end in
  NewDecoder decoder = (ends (mpg123_new None), [call_mpg123_new None])
  /\ NewDecoder "" = (ends (mpg123_new (Some "")), [call_mpg123_new (Some "")])
  /\ (forall given name,
        In (call_mpg123_new (Some name)) (snd (NewDecoder (H:=H) given)) ->
        given = "" /\ name = "").
Proof.
  intros Hne ends. subst ends. cbv beta.
  assert (Hnull : forall d, d <> "" ->
            NewDecoder (H:=H) d
            = (match fst (mpg123_new None) with
               | Some h => Created {| handle := h |}
               | None => Frees_library_string
                           (mpg123_plain_strerror (C_int (snd (mpg123_new None))))
               end, [call_mpg123_new None])).
  { intros d Hd. unfold NewDecoder.
    destruct (decide (d <> "")) as [_|Hn]; [|destruct (Hn Hd)].
    destruct (mpg123_new None) as [[h|] err]; reflexivity. }
  assert (Hempty : NewDecoder (H:=H) ""
            = (match fst (mpg123_new (Some "")) with
               | Some h => Created {| handle := h |}
               | None => Frees_library_string
                           (mpg123_plain_strerror (C_int (snd (mpg123_new (Some "")))))
               end, [call_mpg123_new (Some "")])).
  { unfold NewDecoder.
    destruct (decide ("" <> "")) as [Hn|_]; [destruct Hn; reflexivity|].
    destruct (mpg123_new (Some "")) as [[h|] err]; reflexivity. }
  split; [exact (Hnull decoder Hne)|]. split; [exact Hempty|].
  intros given name. destruct (decide (given = "")) as [->|Hg].
  - rewrite Hempty. simpl. intros [Hin|[]]. injection Hin as <-. split; reflexivity.
  - rewrite (Hnull given Hg). simpl. intros [Hin|[]]. discriminate Hin.
Qed.

(** ** The streaming reader *)


(** What [Read] does on [io.EOF] from upstream: a paranoid reader closes and
    deletes the handle and returns end-of-stream at once, without a poll.
    Any other reader goes on to the read half; with room in the
    caller's buffer its next call is the poll, and when the status is one
    the switch has a case for, a positive count is returned with no error
    and a zero count gives end-of-stream; the round returns end-of-stream
    only if the poll stored zero bytes. *)
Theorem Read_on_upstream_eof rounds dr bytes st front s' :
  io_Read (src st) (64 * 1024) = (front, Some io_EOF, s') ->
  let run := DecoderReader_Read (S rounds) dr bytes st in
  let seen := calls st ++ [call_src_Read (64 * 1024) (len front) (Some io_EOF)] in
  if paranoid dr then
    fst run = Returns (0, Some io_EOF)
    /\ calls (snd run) = seen ++ nuke_calls (handle (decoder st))
  else
    round dr bytes st
    = read_output bytes (Some io_EOF) (asked st front (Some io_EOF) s')
    /\ (bytes <> [] ->
        exists msg done h',
          mpg123_read (handle (decoder st)) (C_size_t (len bytes)) = (msg, done, h')
          /\ (exists more,
                calls (snd run)
                = seen
                  ++ call_mpg123_read (C_size_t (len bytes)) msg (C_size_t done) :: more)
          /\ (handled msg = true ->
              fst run = if decide (C_size_t done > 0)
                        then Returns (Go_int (C_size_t done), None)
                        else Returns (0, Some io_EOF))
          /\ (forall n st',
                round dr bytes st = (Returns (Some (n, Some io_EOF)), st') ->
                C_size_t done = 0 /\ n = 0)).
Proof.
  intros Hsrc run seen. subst run seen.
  pose proof (feed_data_eof dr st front s' Hsrc) as Hfeed.
  destruct (paranoid dr).
  - rewrite (Read_early rounds dr bytes st _ _ Hfeed). simpl.
    rewrite <- List.app_assoc. split; reflexivity.
  - split; [unfold round, bind; rewrite Hfeed; reflexivity|].
    intros Hne.
    destruct (mpg123_read (handle (decoder st)) (C_size_t (len bytes)))
      as [[msg done] h'] eqn:Hread.
    exists msg, done, h'. split; [reflexivity|].
    set (st1 := asked st front (Some io_EOF) s') in *.
    assert (Hread1 : mpg123_read (handle (decoder st1)) (C_size_t (len bytes))
                     = (msg, done, h')) by exact Hread.
    split; [|split].
    + rewrite (Read_polled rounds dr bytes st _ _ _ _ _ Hfeed Hne Hread1).
      match goal with
      | |- context [calls (snd (?m ?st2))] =>
          assert (Hm : grows m) by grow; destruct (Hm st2) as [more E]
      end.
      exists more. rewrite E. simpl. rewrite <- List.app_assoc. reflexivity.
    + intros Hh.
      rewrite (Read_polled rounds dr bytes st _ _ _ _ _ Hfeed Hne Hread1).
      unfold bind. rewrite (switch_msg_handled _ _ _ _ Hh), produced_run.
      destruct (decide (C_size_t done > 0)) as [Hpos|Hzero]; [reflexivity|].
      destruct (decide (Some io_EOF = Some io_EOF)) as [_|Hn]; [|destruct Hn; reflexivity].
      simpl. rewrite (size_t_not_positive done Hzero). reflexivity.
    + intros n st'. unfold round, bind.
      rewrite Hfeed, (read_output_run bytes _ st1 msg done h' Hne Hread1).
      destruct (handled msg) eqn:Hh.
      * rewrite (switch_msg_handled _ _ _ _ Hh), produced_run.
        destruct (decide (C_size_t done > 0)) as [Hpos|Hzero]; [discriminate|].
        destruct (decide (Some io_EOF = Some io_EOF)) as [_|Hn]; [|destruct Hn; reflexivity].
        rewrite (size_t_not_positive done Hzero). intros E.
        injection E as <- _. split; reflexivity.
      * rewrite (switch_msg_unhandled _ _ _ _ Hh). discriminate.
Qed.

Lemma noted_calls msg st : exists more, calls (noted msg st) = calls st ++ more.
Proof.
  destruct msg; simpl; try (exists []; rewrite app_nil_r; reflexivity).
  eexists. reflexivity.
Qed.

(** End-of-stream out of the feed half: zero bytes, straight after [Nuke]. *)
Lemma feed_data_eof_nuked dr st n st' :
  feed_data dr st = (Returns (inl (n, Some io_EOF)), st') ->
  n = 0 /\ exists st0, st' = nuked_store st0
                       /\ exists more, calls st0 = calls st ++ more.
Proof.
  destruct (io_Read (src st) (64 * 1024)) as [[front [e|]] s'] eqn:Hsrc.
  - destruct (decide (e = io_EOF)) as [->|He].
    + rewrite (feed_data_eof dr st front s' Hsrc).
      destruct (paranoid dr); [|discriminate].
      intros E. injection E as <- <-. split; [reflexivity|].
      eexists. split; [reflexivity|]. eexists. reflexivity.
    + rewrite (feed_data_error dr st front e s' Hsrc He).
      intros E. injection E as _ E' _. destruct (He E').
  - unfold feed_data, slice_to. unfold bind at 1 2. unfold on_src, record, ret at 1.
    rewrite Hsrc. cbv beta iota zeta. unfold bind.
    destruct (decide (len front <= 64 * 1024)); [|discriminate].
    unfold ret at 1.
    destruct (Decoder_Feed front _) as [[[e|]| |] st1]; discriminate.
Qed.

(** End-of-stream out of the read half: zero bytes, straight after [Nuke]. *)
Lemma read_output_eof_nuked bytes err st n st' :
  read_output bytes err st = (Returns (Some (n, Some io_EOF)), st') ->
  n = 0 /\ exists st0, st' = nuked_store st0
                       /\ exists more, calls st0 = calls st ++ more.
Proof.
  destruct bytes as [|b bytes]; [rewrite read_output_empty; discriminate|].
  destruct (mpg123_read (handle (decoder st)) (C_size_t (len (b :: bytes))))
    as [[msg done] h'] eqn:Hread.
  rewrite (read_output_run (b :: bytes) err st msg done h' ltac:(discriminate) Hread).
  destruct (handled msg) eqn:Hh.
  - rewrite (switch_msg_handled _ _ _ _ Hh), produced_run.
    destruct (decide (C_size_t done > 0)) as [Hpos|Hzero]; [discriminate|].
    destruct (decide (err = Some io_EOF)); [|discriminate].
    rewrite (size_t_not_positive done Hzero).
    intros E. injection E as <- <-. split; [reflexivity|].
    eexists. split; [reflexivity|].
    destruct (noted_calls msg (polled st (len (b :: bytes)) msg done h')) as [more E].
    eexists. rewrite E. unfold polled at 1. simpl calls.
    rewrite <- List.app_assoc. reflexivity.
  - rewrite (switch_msg_unhandled _ _ _ _ Hh). discriminate.
Qed.

(** C3: whenever [Read] returns [io.EOF], the count is zero and the last
    thing it did was [Nuke]: the two most recent calls are the close, with
    whatever it reported, and the delete. *)
Theorem Read_eof_torn_down rounds dr bytes st n st' :
  DecoderReader_Read rounds dr bytes st = (Returns (n, Some io_EOF), st') ->
  n = 0
  /\ exists cs h,
       calls st' = cs ++ nuke_calls h
       /\ handle (decoder st') = nuked h
       /\ exists more, cs = calls st ++ more.
Proof.
  revert st. induction rounds as [|k IH]; intros st; [discriminate|].
  simpl. unfold round. unfold bind at 1 2.
  destruct (grows_feed_data dr st) as [m1 E1].
  destruct (feed_data dr st) as [[[v|err]| |] st1] eqn:Hfeed; try discriminate.
  - intros E. injection E as -> ->.
    destruct (feed_data_eof_nuked dr st n st' Hfeed) as [Hn [st0 [-> Hmore]]].
    split; [assumption|].
    exists (calls st0), (handle (decoder st0)). repeat split. assumption.
  - simpl in E1. destruct (grows_read_output bytes err st1) as [m2 E2].
    destruct (read_output bytes err st1) as [[[v|]| |] st2] eqn:Hout;
      try discriminate.
    + intros E. injection E as -> ->.
      destruct (read_output_eof_nuked bytes err st1 n st' Hout)
        as [Hn [st0 [-> [m0 E0]]]].
      split; [assumption|].
      exists (calls st0), (handle (decoder st0)). repeat split.
      exists (m1 ++ m0). rewrite E0, E1, List.app_assoc. reflexivity.
    + simpl in E2. intros Hrun.
      destruct (IH st2 Hrun) as [Hn [cs [h [Hc [Hh [m3 E3]]]]]].
      split; [assumption|]. exists cs, h. repeat split; try assumption.
      exists (m1 ++ m2 ++ m3). rewrite E3, E2, E1, !List.app_assoc. reflexivity.
Qed.


(** C6: a failure reported by the feed is logged and nothing more.  The
    feed half hands the round on to the read half; with room in the caller's
    buffer the next call is the poll.  The round then returns bytes without
    an error or starts the next round, it never returns the error of the
    feed. *)
Theorem Read_feed_error_swallowed dr st front s' r h' :
  io_Read (src st) (64 * 1024) = (front, None, s') ->
  front <> [] ->
  len front <= 64 * 1024 ->
  mpg123_feed (handle (decoder st)) front = (r, h') ->
  r <> MPG123_OK ->
  let e := Errorf ("mpg123 error: " +:+ mpg123_strerror h') in
  let st1 := fed_store st front s' r h' in
  feed_data dr st = (Returns (inr (Some e)), st1)
  /\ calls st1
     = calls st
       ++ [call_src_Read (64 * 1024) (len front) None;
           call_mpg123_feed front r;
           call_log_Print [LString "Error while feeding to mpg123: "; LError e]]
  /\ (forall bytes, round dr bytes st = read_output bytes (Some e) st1)
  /\ (forall rounds bytes,
        bytes <> [] ->
        exists msg done more,
          calls (snd (DecoderReader_Read (S rounds) dr bytes st))
          = calls st1
            ++ call_mpg123_read (C_size_t (len bytes)) msg (C_size_t done) :: more)
  /\ (forall bytes v st',
        round dr bytes st = (Returns (Some v), st') -> snd v = None).
Proof.
  intros Hsrc Hfront Hlen Hfeed Hr e st1. subst e st1.
  pose proof (feed_data_fed dr st front s' r h' Hsrc Hfront Hlen Hfeed) as Hfd.
  assert (Hfe : feed_error r h' = Some (Errorf ("mpg123 error: " +:+ mpg123_strerror h'))).
  { unfold feed_error. destruct (decide (r <> MPG123_OK)); tauto. }
  rewrite Hfe in Hfd.
  set (st1 := fed_store st front s' r h') in *.
  split; [exact Hfd|]. split; [|split; [|split]].
  - subst st1. unfold fed_store, asked. rewrite Hfe. simpl.
    rewrite <- List.app_assoc. reflexivity.
  - intros bytes. unfold round, bind. rewrite Hfd. reflexivity.
  - intros rounds bytes Hne.
    destruct (mpg123_read (handle (decoder st1)) (C_size_t (len bytes)))
      as [[msg done] h2] eqn:Hread.
    rewrite (Read_polled rounds dr bytes st _ _ _ _ _ Hfd Hne Hread).
    match goal with
    | |- context [calls (snd (?m ?st2))] =>
        assert (Hm : grows m) by grow; destruct (Hm st2) as [more E]
    end.
    exists msg, done, more. rewrite E. simpl. rewrite <- List.app_assoc. reflexivity.
  - intros bytes v st'. unfold round, bind. rewrite Hfd.
    destruct bytes as [|b bytes]; [rewrite read_output_empty; discriminate|].
    destruct (mpg123_read (handle (decoder st1)) (C_size_t (len (b :: bytes))))
      as [[msg done] h2] eqn:Hread.
    rewrite (read_output_run (b :: bytes) _ st1 msg done h2 ltac:(discriminate) Hread).
    destruct (handled msg) eqn:Hh.
    + rewrite (switch_msg_handled _ _ _ _ Hh), produced_run.
      destruct (decide (C_size_t done > 0)).
      * intros E. injection E as <- _. reflexivity.
      * destruct (decide (_ = Some io_EOF)); discriminate.
    + rewrite (switch_msg_unhandled _ _ _ _ Hh). discriminate.
Qed.


End Runs.

(** ** Format negotiation *)

Section Formats.

Context {H R : Type} {engine : Libmpg123 H} {upstream : Reader R}
  {table : FormatTable H}.


End Formats.

(** ** The binding on the test doubles *)

Lemma Decoder_Read_by_status_witness :
  let st := fake_store engine_tail drained in
  mpg123_read (handle (decoder st)) (C_size_t (len four_bytes))
  = (MPG123_DONE, 3, engine_empty)
  /\ calls (snd (Decoder_Read four_bytes st)) = [call_mpg123_read 4 MPG123_DONE 3]
  /\ fst (Decoder_Read four_bytes st) = Returns (3, Some EOF).
Proof.
  split; [reflexivity|].
  exact (proj2 (Decoder_Read_by_status (engine:=fake_Libmpg123) four_bytes
                  (fake_store engine_tail drained) MPG123_DONE 3 engine_empty eq_refl)).
Defined.

Lemma NewDecoder_engine_name_witness :
  "generic" <> ""
  /\ mpg123_new (H:=fake_engine) (Some "generic") = (None, 1)
  /\ NewDecoder "generic"
     = (Created {| handle := fake_new [] (MPG123_NEED_MORE, 0) [] |},
        [call_mpg123_new None])
  /\ snd (NewDecoder (H:=fake_engine) "") = [call_mpg123_new (Some "")].
Proof.
  split; [discriminate|]. split; [reflexivity|].
  destruct (NewDecoder_engine_name (H:=fake_engine) "generic" ltac:(discriminate))
    as [Hnull [Hempty _]].
  split; [exact Hnull|]. rewrite Hempty. reflexivity.
Defined.


Lemma Read_on_upstream_eof_witness :
  let st := fake_store engine_pending drained in
  let run := DecoderReader_Read 1 (reader false) four_bytes st in
  io_Read (src st) (64 * 1024) = ([], Some io_EOF, [])
  /\ round (reader false) four_bytes st
     = read_output four_bytes (Some io_EOF) (asked st [] (Some io_EOF) [])
  /\ (four_bytes <> [] ->
      exists msg done h',
        mpg123_read (handle (decoder st)) (C_size_t (len four_bytes)) = (msg, done, h')
        /\ (exists more,
              calls (snd run)
              = [call_src_Read 65536 0 (Some io_EOF)]
                ++ call_mpg123_read (C_size_t (len four_bytes)) msg (C_size_t done) :: more)
        /\ (handled msg = true ->
            fst run = if decide (C_size_t done > 0)
                      then Returns (Go_int (C_size_t done), None)
                      else Returns (0, Some io_EOF))
        /\ (forall n st',
              round (reader false) four_bytes st = (Returns (Some (n, Some io_EOF)), st') ->
              C_size_t done = 0 /\ n = 0))
  /\ fst run = Returns (4, None).
Proof.
  split; [reflexivity|].
  pose proof (Read_on_upstream_eof (engine:=fake_Libmpg123) (upstream:=script_Reader)
                0 (reader false) four_bytes (fake_store engine_pending drained)
                [] [] eq_refl) as [Hround Hpoll].
  split; [exact Hround|]. split; [exact Hpoll|reflexivity].
Defined.

Lemma Read_eof_torn_down_witness :
  let st := fake_store engine_empty drained in
  exists st',
    DecoderReader_Read 1 (reader false) four_bytes st = (Returns (0, Some io_EOF), st')
    /\ exists cs h,
         calls st' = cs ++ nuke_calls h
         /\ handle (decoder st') = nuked h
         /\ exists more, cs = calls st ++ more.
Proof.
  eexists. split; [reflexivity|].
  exact (proj2 (Read_eof_torn_down (engine:=fake_Libmpg123) (upstream:=script_Reader)
                  1 (reader false) four_bytes
                  (fake_store engine_empty drained) 0 _ eq_refl)).
Defined.


Lemma Read_feed_error_swallowed_witness :
  let st := fake_store engine_refusing one_chunk in
  let front := ["I"; "D"; "3"]%byte in
  let e := Errorf "mpg123 error: fake engine: refused" in
  exists h',
    io_Read (src st) (64 * 1024) = (front, None, [])
    /\ front <> []
    /\ len front <= 64 * 1024
    /\ mpg123_feed (handle (decoder st)) front = (MPG123_ERR (-1), h')
    /\ MPG123_ERR (-1) <> MPG123_OK
    /\ feed_data (reader false) st
       = (Returns (inr (Some e)), fed_store st front [] (MPG123_ERR (-1)) h')
    /\ fst (DecoderReader_Read 1 (reader false) four_bytes st) = Returns (4, None).
Proof.
  eexists.
  split; [reflexivity|]. split; [discriminate|]. split; [vm_compute; discriminate|].
  split; [reflexivity|]. split; [discriminate|].
  split; [|reflexivity].
  exact (proj1 (Read_feed_error_swallowed (engine:=fake_Libmpg123) (upstream:=script_Reader)
                  (reader false) (fake_store engine_refusing one_chunk)
                  ["I"; "D"; "3"]%byte [] (MPG123_ERR (-1)) _
                  eq_refl ltac:(discriminate) ltac:(vm_compute; discriminate) eq_refl
                  ltac:(discriminate))).
Defined.



(** C1 on the code: upstream reports [io.EOF] without bytes, the engine
    still has four bytes to hand out, and the paranoid reader returns
    end-of-stream at once: it closes and deletes the handle and never polls,
    so the four bytes are lost.  The same store read without paranoia yields
    the four bytes. *)
Lemma Read_paranoid_eof_no_poll :
  let st := fake_store engine_pending drained in
  let run := DecoderReader_Read 1 (Paranoid (reader false)) four_bytes st in
  io_Read (src st) (64 * 1024) = ([], Some io_EOF, [])
  /\ fst run = Returns (0, Some io_EOF)
  /\ calls (snd run)
     = [call_src_Read 65536 0 (Some io_EOF); call_mpg123_close MPG123_OK;
        call_mpg123_delete]
  /\ filter is_mpg123_read (calls (snd run)) = []
  /\ fst (DecoderReader_Read 1 (reader false) four_bytes st) = Returns (4, None).
Proof. repeat split; reflexivity. Qed.



(** C2 on the code: with upstream drained and an engine that fails every
    poll, a reader that is not paranoid never returns; however many rounds
    it is given, it is still looping, and no error has reached the caller. *)
Theorem Read_hard_error_never_returns (rounds : nat) :
  fst (DecoderReader_Read rounds (reader false) four_bytes
         (fake_store engine_failing drained))
  = Spins.
Proof.
  unfold fake_store. generalize (@nil call) as cs.
  induction rounds as [|k IH]; intros cs; [reflexivity|].
  set (st := {| decoder := {| handle := engine_failing |}; src := drained;
                calls := cs |}).
  pose proof (feed_data_eof (engine:=fake_Libmpg123) (upstream:=script_Reader)
                (reader false) st [] [] eq_refl) as Hfeed.
  rewrite (Read_unhandled_status (engine:=fake_Libmpg123) (upstream:=script_Reader)
             k (reader false) four_bytes st _ _ (MPG123_ERR (-1)) 0 engine_failing
             Hfeed ltac:(discriminate) eq_refl eq_refl).
  apply IH.
Qed.

(** * Further properties of the binding *)

(** ** Machine integers, again *)

Lemma wrap_signed_period (w z k : Z) :
  0 < w -> wrap_signed w (z + k * 2 ^ w) = wrap_signed w z.
Proof.
  intros Hw. unfold wrap_signed.
  replace (z + k * 2 ^ w + 2 ^ (w - 1)) with (z + 2 ^ (w - 1) + k * 2 ^ w) by lia.
  rewrite Z.mod_add; [reflexivity|]. apply Z.pow_nonzero; lia.
Qed.

(** A positive [size_t] never converts to the [int] zero. *)
Lemma Go_int_nonzero (d : Z) : 0 < d < 2 ^ 64 -> Go_int d <> 0.
Proof.
  intros Hd. unfold Go_int, wrap_signed.
  change (2 ^ (64 - 1)) with 9223372036854775808.
  change (2 ^ 64) with 18446744073709551616 in *.
  destruct (Z_lt_le_dec d 9223372036854775808) as [Hlt|Hge].
  - rewrite Z.mod_small by lia. lia.
  - replace (d + 9223372036854775808)
      with (d - 9223372036854775808 + 1 * 18446744073709551616) by lia.
    rewrite Z.mod_add by lia. rewrite Z.mod_small by lia. lia.
Qed.

Section Coverage.

Context {H R : Type} {engine : Libmpg123 H} {upstream : Reader R}.

Implicit Types (st : Store H R) (dr : DecoderReader) (bytes buf : list byte).

(** ** The format setter *)

(** [Format] hands channels and encodings to the engine as C [int]s: values
    that fit arrive unchanged, and two values a multiple of 2^32 apart are
    the same request. *)
Theorem Format_passes_C_ints (rate channels encodings k l : Z) st :
  Decoder_Format rate (channels + k * 2 ^ 32) (encodings + l * 2 ^ 32) st
  = Decoder_Format rate channels encodings st
  /\ (- 2 ^ 63 <= rate < 2 ^ 63 ->
      - 2 ^ 31 <= channels < 2 ^ 31 ->
      - 2 ^ 31 <= encodings < 2 ^ 31 ->
      calls (snd (Decoder_Format rate channels encodings st))
      = calls st ++ [call_mpg123_format rate channels encodings]).
Proof.
  split.
  - unfold Decoder_Format, C_int. rewrite !(wrap_signed_period 32) by lia.
    reflexivity.
  - intros Hr Hc He. unfold Decoder_Format, bind, on_handle, record, C_long.
    rewrite (wrap_signed_small 64 rate) by (simpl; lia).
    rewrite !C_int_small by lia.
    destruct (mpg123_format _ _ _ _). reflexivity.
Qed.

(** ** What a computation adds to the record *)

Lemma adds_ret {A} P (a : A) : adds (H:=H) (R:=R) P (ret a).
Proof. intros st. exists []. simpl. rewrite app_nil_r. split; reflexivity. Qed.

Lemma adds_panic {A} P msg : adds (H:=H) (R:=R) (A:=A) P (panic msg).
Proof. intros st. exists []. simpl. rewrite app_nil_r. split; reflexivity. Qed.

Lemma adds_spin {A} P : adds (H:=H) (R:=R) (A:=A) P spin.
Proof. intros st. exists []. simpl. rewrite app_nil_r. split; reflexivity. Qed.

Lemma adds_record P c : P c = true -> adds (H:=H) (R:=R) P (record c).
Proof. intros Hc st. exists [c]. simpl. rewrite Hc. split; reflexivity. Qed.

Lemma adds_on_handle {A} P (f : H -> A * H) : adds (R:=R) P (on_handle f).
Proof.
  intros st. exists []. unfold on_handle. destruct (f _). simpl.
  rewrite app_nil_r. split; reflexivity.
Qed.

Lemma adds_on_src {A} P (f : R -> A * R) : adds (H:=H) P (on_src f).
Proof.
  intros st. exists []. unfold on_src. destruct (f _). simpl.
  rewrite app_nil_r. split; reflexivity.
Qed.

Lemma adds_bind {A B} P (m : M (Store H R) A) (k : A -> M (Store H R) B) :
  adds P m -> (forall a, adds P (k a)) -> adds P (bind m k).
Proof.
  intros Hm Hk st. unfold bind. destruct (Hm st) as [more1 [E1 F1]].
  destruct (m st) as [[a|msg|] st1]; simpl in *.
  - destruct (Hk a st1) as [more2 [E2 F2]]. exists (more1 ++ more2).
    rewrite E2, E1, List.app_assoc, forallb_app, F1, F2. split; reflexivity.
  - exists more1. split; assumption.
  - exists more1. split; assumption.
Qed.

Lemma adds_weaken {A} (P Q : call -> bool) (m : M (Store H R) A) :
  (forall c, P c = true -> Q c = true) -> adds P m -> adds Q m.
Proof.
  intros HPQ Hm st. destruct (Hm st) as [more [E F]]. exists more.
  split; [assumption|]. rewrite forallb_forall in *. auto.
Qed.

Lemma adds_strerror P : adds (H:=H) (R:=R) P Decoder_strerror.
Proof. intros st. exists []. simpl. rewrite app_nil_r. split; reflexivity. Qed.

Lemma adds_Nuke P :
  (forall r, P (call_mpg123_close r) = true) ->
  P call_mpg123_delete = true ->
  adds (H:=H) (R:=R) P Nuke.
Proof.
  intros Hclose Hdelete st. rewrite Nuke_run. eexists. split; [reflexivity|].
  simpl. rewrite Hclose, Hdelete. reflexivity.
Qed.

Lemma polling_is_streaming bytes c :
  polling_call bytes c = true -> streaming_call bytes c = true.
Proof.
  unfold polling_call. intros Hc.
  apply andb_prop in Hc as [Hc _]. apply andb_prop in Hc as [Hc _]. exact Hc.
Qed.

(** The read half asks the engine for the whole of the caller's buffer and
    makes no call upstream. *)
Lemma adds_read_output bytes err :
  adds (H:=H) (R:=R) (polling_call bytes) (read_output bytes err).
Proof.
  assert (Hnuke : adds (H:=H) (R:=R) (polling_call bytes) Nuke)
    by (apply adds_Nuke; reflexivity).
  assert (Hprod : forall done, adds (H:=H) (R:=R) (polling_call bytes) (produced done err)).
  { intros done. unfold produced.
    destruct (decide (done > 0)); [apply adds_ret|].
    destruct (decide (err = Some io_EOF)); [|apply adds_ret].
    apply adds_bind; [exact Hnuke|intros ?; apply adds_ret]. }
  unfold read_output, C_mpg123_read, first_elem.
  apply adds_bind; [destruct bytes; [apply adds_panic|apply adds_ret]|intros _].
  apply adds_bind.
  - apply adds_bind; [apply adds_on_handle|intros [msg done]].
    apply adds_bind; [|intros ?; apply adds_ret].
    apply adds_record. unfold polling_call, streaming_call. simpl.
    rewrite !andb_true_r. apply bool_decide_eq_true.
    split; [reflexivity|apply C_size_t_range].
  - intros [msg done]. unfold switch_msg, Decoder_GetFormat.
    destruct msg; try apply Hprod; [|apply adds_ret].
    apply adds_bind.
    + apply adds_bind; [apply adds_on_handle|intros [[r c] e]].
      apply adds_bind; [apply adds_record; reflexivity|intros ?; apply adds_ret].
    + intros [[r c] e]. apply adds_bind; [apply adds_record; reflexivity|].
      intros ?. apply Hprod.
Qed.

(** The feed half asks upstream for 64 KiB and feeds what came, when it is
    at least one byte and no more than was asked for. *)
Lemma adds_feed_data bytes dr :
  adds (H:=H) (R:=R) (streaming_call bytes) (feed_data dr).
Proof.
  assert (Hnuke : adds (H:=H) (R:=R) (streaming_call bytes) Nuke)
    by (apply adds_Nuke; reflexivity).
  unfold feed_data.
  apply adds_bind; [apply adds_on_src|intros [front err]].
  apply adds_bind; [apply adds_record; reflexivity|intros _].
  destruct err as [e|].
  - destruct (decide (e <> io_EOF)).
    + apply adds_bind; [destruct (paranoid dr); [exact Hnuke|apply adds_ret]|].
      intros ?. apply adds_ret.
    + destruct (paranoid dr); [|apply adds_ret].
      apply adds_bind; [exact Hnuke|intros ?; apply adds_ret].
  - unfold slice_to. destruct (decide (len front <= 64 * 1024)) as [Hlen|Hlen].
    + unfold bind at 1. unfold ret at 1.
      unfold Decoder_Feed, mpg123_error, first_elem.
      destruct front as [|b front].
      * intros st. exists []. rewrite app_nil_r. split; reflexivity.
      * apply adds_bind; [apply adds_bind; [apply adds_ret|intros ?]|intros ?].
        -- apply adds_bind; [apply adds_on_handle|intros ?].
           apply adds_bind; [apply adds_record|intros ?].
           ++ apply bool_decide_eq_true. unfold len in *.
              change (64 * 1024) with 65536 in Hlen. simpl length in *. lia.
           ++ destruct (decide _); [|apply adds_ret].
              apply adds_bind; [|intros ?; apply adds_ret].
              apply adds_bind; [apply adds_strerror|intros ?; apply adds_ret].
        -- destruct a; [|apply adds_ret].
           apply adds_bind; [apply adds_record; reflexivity|intros ?; apply adds_ret].
    + intros st. exists []. rewrite app_nil_r. split; reflexivity.
Qed.

(** ** One round after another *)

(** An upstream read that brings neither bytes nor an error makes [Read]
    panic, whatever the caller's buffer: [Feed] indexes the empty slice
    [buf[0:0]]. *)
Theorem Read_empty_chunk_panics rounds dr bytes st s' :
  io_Read (src st) (64 * 1024) = ([], None, s') ->
  DecoderReader_Read (S rounds) dr bytes st
  = (Panics "runtime error: index out of range [0] with length 0",
     asked st [] None s').
Proof.
  intros Hsrc. simpl. unfold round, feed_data, slice_to.
  unfold bind at 1 2 3 4. unfold on_src, record, ret at 1. rewrite Hsrc.
  reflexivity.
Qed.

(** A poll that stores no bytes while upstream has not reported [io.EOF]
    returns nothing: the handle stays open and the loop starts its next
    round from the store the poll left. *)
Theorem Read_polls_again rounds dr bytes st err st1 msg done h' :
  feed_data dr st = (Returns (inr err), st1) ->
  bytes <> [] ->
  mpg123_read (handle (decoder st1)) (C_size_t (len bytes)) = (msg, done, h') ->
  handled msg = true ->
  C_size_t done = 0 ->
  err <> Some io_EOF ->
  DecoderReader_Read (S rounds) dr bytes st
  = DecoderReader_Read rounds dr bytes (noted msg (polled st1 (len bytes) msg done h')).
Proof.
  intros Hfeed Hne Hread Hh Hzero Herr. simpl. unfold round. unfold bind at 1 2.
  rewrite Hfeed, (read_output_run bytes err st1 msg done h' Hne Hread).
  rewrite (switch_msg_handled _ _ _ _ Hh), produced_run, Hzero.
  destruct (decide (0 > 0)) as [Hpos|_]; [lia|].
  destruct (decide (err = Some io_EOF)) as [He|_]; [destruct (Herr He)|].
  reflexivity.
Qed.

(** [Read] keeps no note of a teardown: a paranoid reader whose upstream
    reports [io.EOF] twice closes and deletes the handle on both calls. *)
Theorem Read_paranoid_tears_down_again k1 k2 dr b1 b2 st f1 s1 f2 s2 :
  paranoid dr = true ->
  io_Read (src st) (64 * 1024) = (f1, Some io_EOF, s1) ->
  io_Read s1 (64 * 1024) = (f2, Some io_EOF, s2) ->
  let first := DecoderReader_Read (S k1) dr b1 st in
  let second := DecoderReader_Read (S k2) dr b2 (snd first) in
  let h := handle (decoder st) in
  fst first = Returns (0, Some io_EOF)
  /\ fst second = Returns (0, Some io_EOF)
  /\ calls (snd second)
     = calls st
       ++ call_src_Read (64 * 1024) (len f1) (Some io_EOF) :: nuke_calls h
       ++ call_src_Read (64 * 1024) (len f2) (Some io_EOF) :: nuke_calls (nuked h)
  /\ handle (decoder (snd second)) = nuked (nuked h).
Proof.
  intros Hp Hsrc1 Hsrc2 first second h. subst first second h.
  pose proof (feed_data_eof dr st f1 s1 Hsrc1) as Hfeed1. rewrite Hp in Hfeed1.
  rewrite (Read_early k1 dr b1 st _ _ Hfeed1). cbn [fst snd].
  set (st1 := nuked_store (asked st f1 (Some io_EOF) s1)).
  pose proof (feed_data_eof dr st1 f2 s2 Hsrc2) as Hfeed2. rewrite Hp in Hfeed2.
  rewrite (Read_early k2 dr b2 st1 _ _ Hfeed2).
  split; [reflexivity|]. split; [reflexivity|]. split; [|reflexivity].
  simpl. rewrite <- !List.app_assoc. reflexivity.
Qed.

(** While the upstream read succeeds, the paranoid flag changes nothing. *)
Theorem round_same_while_upstream_succeeds dr1 dr2 bytes st front s' :
  io_Read (src st) (64 * 1024) = (front, None, s') ->
  round dr1 bytes st = round dr2 bytes st.
Proof.
  intros Hsrc.
  assert (Hfeed : feed_data dr1 st = feed_data dr2 st).
  { unfold feed_data, bind, on_src, record. rewrite Hsrc. reflexivity. }
  unfold round, bind. rewrite Hfeed. reflexivity.
Qed.

(** ** What a whole call of [Read] does and does not do *)

(** Every call [Read] adds to the record, however it ends, is one of the
    streaming calls: upstream is always asked for 64 KiB, whatever the size
    of the caller's buffer; a feed carries between one byte and 64 KiB; a
    poll offers the caller's whole buffer; no call creates or opens a handle
    or changes the allowed formats.  (Fetching an error text is not in the
    record.) *)
Theorem Read_calls_are_streaming rounds dr bytes st :
  exists more,
    calls (snd (DecoderReader_Read rounds dr bytes st)) = calls st ++ more
    /\ forallb (streaming_call bytes) more = true.
Proof.
  revert st. change (adds (streaming_call bytes) (DecoderReader_Read rounds dr bytes)).
  induction rounds as [|k IH]; simpl; [apply adds_spin|].
  apply adds_bind.
  - unfold round. apply adds_bind; [apply adds_feed_data|intros [v|err]].
    + apply adds_ret.
    + apply (adds_weaken (polling_call bytes)); [apply polling_is_streaming|].
      apply adds_read_output.
  - intros [v|]; [apply adds_ret|exact IH].
Qed.

(** Bytes that upstream delivers together with an error, [io.EOF] included,
    are never fed: the round feeds nothing and asks upstream once. *)
Theorem round_drops_bytes_on_error dr bytes st front e s' :
  io_Read (src st) (64 * 1024) = (front, Some e, s') ->
  exists more,
    calls (snd (round dr bytes st))
    = calls st ++ call_src_Read (64 * 1024) (len front) (Some e) :: more
    /\ forallb (polling_call bytes) more = true.
Proof.
  intros Hsrc.
  assert (Hnuke : forall st0 : Store H R,
            forallb (polling_call bytes) (nuke_calls (handle (decoder st0))) = true)
    by reflexivity.
  unfold round, bind.
  destruct (decide (e = io_EOF)) as [->|He].
  - rewrite (feed_data_eof dr st front s' Hsrc). destruct (paranoid dr).
    + eexists. simpl. rewrite <- List.app_assoc. split; reflexivity.
    + destruct (adds_read_output bytes (Some io_EOF) (asked st front (Some io_EOF) s'))
        as [more [E F]].
      exists more. rewrite E. simpl. rewrite <- List.app_assoc. split; [reflexivity|exact F].
  - rewrite (feed_data_error dr st front e s' Hsrc He). destruct (paranoid dr).
    + eexists. simpl. rewrite <- List.app_assoc. split; reflexivity.
    + exists []. split; reflexivity.
Qed.

(** How a round that returns left the record. *)
Lemma noted_quiet msg st :
  calls (noted msg st) = calls st ++ noted_calls_of msg (handle (decoder st))
  /\ forallb quiet (noted_calls_of msg (handle (decoder st))) = true.
Proof.
  destruct msg; simpl; rewrite ?app_nil_r; try (split; reflexivity).
  unfold new_format_calls.
  destruct (fst (mpg123_getformat (handle (decoder st)))) as [[r c] e].
  split; reflexivity.
Qed.

Lemma read_output_returns bytes err st r st' :
  read_output bytes err st = (Returns r, st') ->
  exists more,
    calls st' = calls st ++ more
    /\ match r with
       | Some (n, None) => n <> 0 /\ forallb quiet more = true
       | Some (n, Some e) => n = 0 /\ e = io_EOF /\ err = Some io_EOF
       | None => forallb quiet more = true
       end.
Proof.
  destruct bytes as [|b bytes]; [rewrite read_output_empty; discriminate|].
  destruct (mpg123_read (handle (decoder st)) (C_size_t (len (b :: bytes))))
    as [[msg done] h'] eqn:Hread.
  rewrite (read_output_run (b :: bytes) err st msg done h' ltac:(discriminate) Hread).
  set (st1 := polled st (len (b :: bytes)) msg done h').
  destruct (handled msg) eqn:Hh.
  - rewrite (switch_msg_handled _ _ _ _ Hh), produced_run.
    destruct (noted_quiet msg st1) as [E F].
    destruct (decide (C_size_t done > 0)) as [Hpos|Hzero].
    + intros X. injection X as <- <-. eexists.
      split; [rewrite E; subst st1; simpl; rewrite <- List.app_assoc; reflexivity|].
      split; [apply Go_int_nonzero; pose proof (C_size_t_range done); lia|].
      simpl. exact F.
    + destruct (decide (err = Some io_EOF)) as [He|He].
      * intros X. injection X as <- <-. eexists.
        split; [simpl; rewrite E; subst st1; simpl; rewrite <- !List.app_assoc;
                reflexivity|].
        rewrite (size_t_not_positive done Hzero). repeat split. exact He.
      * intros X. injection X as <- <-. eexists.
        split; [rewrite E; subst st1; simpl; rewrite <- List.app_assoc; reflexivity|].
        simpl. exact F.
  - rewrite (switch_msg_unhandled _ _ _ _ Hh). intros X. injection X as <- <-.
    eexists. split; reflexivity.
Qed.

Lemma feed_data_returns dr st v st' :
  feed_data dr st = (Returns v, st') ->
  exists front err0 s' more,
    io_Read (src st) (64 * 1024) = (front, err0, s')
    /\ calls st' = calls st ++ call_src_Read (64 * 1024) (len front) err0 :: more
    /\ match v with
       | inl (n, err) => n = 0 /\ err = err0 /\ err <> None
       | inr err => forallb quiet more = true
       end.
Proof.
  destruct (io_Read (src st) (64 * 1024)) as [[front [e|]] s'] eqn:Hsrc.
  - destruct (decide (e = io_EOF)) as [->|He].
    + rewrite (feed_data_eof dr st front s' Hsrc). destruct (paranoid dr);
        intros X; injection X as <- <-; exists front, (Some io_EOF), s'; eexists;
        (split; [reflexivity|]); simpl; rewrite <- ?List.app_assoc;
        (split; [reflexivity|]); [repeat split; discriminate|reflexivity].
    + rewrite (feed_data_error dr st front e s' Hsrc He).
      intros X. injection X as <- <-. exists front, (Some e), s'.
      destruct (paranoid dr); eexists; (split; [reflexivity|]); simpl;
        rewrite <- ?List.app_assoc; (split; [reflexivity|]);
        repeat split; discriminate.
  - destruct (decide (len front <= 64 * 1024)) as [Hlen|Hlen].
    + destruct front as [|b front].
      * unfold feed_data, slice_to. unfold bind at 1 2 3.
        unfold on_src, record, ret at 1. rewrite Hsrc. discriminate.
      * destruct (mpg123_feed (handle (decoder st)) (b :: front)) as [r h'] eqn:Hfeed.
        rewrite (feed_data_fed dr st (b :: front) s' r h' Hsrc ltac:(discriminate)
                   Hlen Hfeed).
        intros X. injection X as <- <-. exists (b :: front), None, s'. eexists.
        split; [reflexivity|]. unfold fed_store, asked. simpl calls.
        rewrite <- List.app_assoc. split; [reflexivity|].
        destruct (feed_error r h'); reflexivity.
    + unfold feed_data, slice_to. unfold bind at 1 2 3.
      unfold on_src, record, ret at 1. rewrite Hsrc. cbv beta iota zeta.
      destruct (decide (len front <= 64 * 1024)); [tauto|discriminate].
Qed.

(** What a returning [Read] left behind: data comes with a record free of
    close and delete, an error with a zero count and is either [io.EOF] or
    the error upstream gave during this call. *)
Lemma Read_returns rounds dr bytes st n err st' :
  DecoderReader_Read rounds dr bytes st = (Returns (n, err), st') ->
  exists more,
    calls st' = calls st ++ more
    /\ match err with
       | None => n <> 0 /\ forallb quiet more = true
       | Some e =>
           n = 0
           /\ (e = io_EOF
               \/ exists k, In (call_src_Read (64 * 1024) k (Some e)) more)
       end.
Proof.
  revert st. induction rounds as [|k IH]; intros st; [discriminate|].
  simpl. unfold round. unfold bind at 1 2.
  destruct (feed_data dr st) as [[[v|err1]| |] st1] eqn:Hfeed; try discriminate.
  - intros X. injection X as -> ->.
    destruct (feed_data_returns dr st _ _ Hfeed)
      as [front [err0 [s' [more [Hsrc [E [Hn [He Hnn]]]]]]]].
    exists (call_src_Read (64 * 1024) (len front) err0 :: more).
    split; [exact E|]. subst err0. destruct err as [e|]; [|destruct Hnn; reflexivity].
    split; [exact Hn|]. right. exists (len front). left. reflexivity.
  - destruct (feed_data_returns dr st _ _ Hfeed)
      as [front [err0 [s' [more1 [Hsrc [E1 F1]]]]]].
    destruct (read_output bytes err1 st1) as [[[v|]| |] st2] eqn:Hout;
      try discriminate.
    + intros X. injection X as -> ->.
      destruct (read_output_returns bytes err1 st1 _ _ Hout) as [more2 [E2 Hv]].
      exists ((call_src_Read (64 * 1024) (len front) err0 :: more1) ++ more2).
      split; [rewrite E2, E1, <- List.app_assoc; reflexivity|].
      destruct err as [e|].
      * destruct Hv as [Hn [He _]]. split; [exact Hn|left; exact He].
      * destruct Hv as [Hn F2]. split; [exact Hn|].
        rewrite forallb_app. simpl. rewrite F1, F2. reflexivity.
    + intros Hrun.
      destruct (read_output_returns bytes err1 st1 _ _ Hout) as [more2 [E2 F2]].
      destruct (IH st2 Hrun) as [more3 [E3 Hv]].
      exists ((call_src_Read (64 * 1024) (len front) err0 :: more1) ++ more2 ++ more3).
      split; [rewrite E3, E2, E1, <- !List.app_assoc; reflexivity|].
      destruct err as [e|].
      * destruct Hv as [Hn [He|[j Hin]]]; (split; [exact Hn|]); [left; exact He|].
        right. exists j. apply in_or_app. right. apply in_or_app. right. exact Hin.
      * destruct Hv as [Hn F3]. split; [exact Hn|].
        rewrite !forallb_app. simpl. rewrite F1, F2, F3. reflexivity.
Qed.

(** [Read] never returns zero bytes without an error, and never returns
    bytes together with an error. *)
Theorem Read_count_or_error rounds dr bytes st n err st' :
  DecoderReader_Read rounds dr bytes st = (Returns (n, err), st') ->
  (err = None <-> n <> 0).
Proof.
  intros Hrun. destruct (Read_returns rounds dr bytes st n err st' Hrun) as [more [_ Hv]].
  destruct err as [e|].
  - destruct Hv as [-> _]. split; [discriminate|intros X; destruct X; reflexivity].
  - destruct Hv as [Hn _]. split; [intros _; exact Hn|reflexivity].
Qed.

(** A [Read] that returns data has neither closed nor deleted the handle,
    in any of its rounds. *)
Theorem Read_data_keeps_handle rounds dr bytes st n st' :
  DecoderReader_Read rounds dr bytes st = (Returns (n, None), st') ->
  exists more, calls st' = calls st ++ more /\ forallb quiet more = true.
Proof.
  intros Hrun. destruct (Read_returns rounds dr bytes st n None st' Hrun) as [more [E [_ F]]].
  exists more. split; assumption.
Qed.

(** The only errors [Read] returns are [io.EOF] and an error the upstream
    reader gave during this very call; no status of the engine becomes an
    error of [Read]. *)
Theorem Read_error_origin rounds dr bytes st n e st' :
  DecoderReader_Read rounds dr bytes st = (Returns (n, Some e), st') ->
  e = io_EOF
  \/ exists more k,
       calls st' = calls st ++ more
       /\ In (call_src_Read (64 * 1024) k (Some e)) more.
Proof.
  intros Hrun.
  destruct (Read_returns rounds dr bytes st n (Some e) st' Hrun) as [more [E [_ [He|[k Hin]]]]].
  - left. exact He.
  - right. exists more, k. split; assumption.
Qed.

(** ** Builder and reader together *)

Lemma builder_run (source : R) (fps channels encoding : Z) st :
  Decoder_DecoderReader source fps channels encoding st
  = (Returns {| fps := fps; channels := channels; paranoid := false |},
     built st source fps channels encoding).
Proof.
  unfold Decoder_DecoderReader, Decoder_FormatNone, Decoder_Format, built,
    restricted, bind, on_handle, on_src, record, ret.
  destruct (mpg123_format_none (handle (decoder st))) as [r1 h1]. simpl.
  destruct (mpg123_format h1 _ _ _) as [r2 h2]. simpl.
  rewrite <- List.app_assoc. reflexivity.
Qed.

(** Empty input: when the source given to the builder is already at
    [io.EOF] and the engine has nothing to hand out, the first [Read] of the
    new reader returns zero bytes and [io.EOF].  Upstream is asked once, the
    engine polled once, and the handle is closed and deleted. *)
Theorem first_Read_of_empty_input (source : R) (fps channels encoding : Z)
    rounds bytes st front s' msg done h3 :
  io_Read source (64 * 1024) = (front, Some io_EOF, s') ->
  bytes <> [] ->
  mpg123_read (restricted (handle (decoder st)) fps channels encoding)
    (C_size_t (len bytes)) = (msg, done, h3) ->
  handled msg = true ->
  C_size_t done = 0 ->
  let run := (dr <- Decoder_DecoderReader source fps channels encoding ;;
              DecoderReader_Read (S rounds) dr bytes) st in
  let polled_st := noted msg (polled (asked (built st source fps channels encoding)
                                        front (Some io_EOF) s')
                                (len bytes) msg done h3) in
  fst run = Returns (0, Some io_EOF)
  /\ calls (snd run)
     = calls st
       ++ [call_mpg123_format_none;
           call_mpg123_format (C_long (Go_int64 fps)) (C_int channels) (C_int encoding);
           call_src_Read (64 * 1024) (len front) (Some io_EOF);
           call_mpg123_read (C_size_t (len bytes)) msg 0]
       ++ noted_calls_of msg h3
       ++ nuke_calls (handle (decoder polled_st))
  /\ src (snd run) = s'.
Proof.
  intros Hsrc Hne Hread Hh Hzero run polled_st.
  set (dr := {| fps := fps; channels := channels; paranoid := false |}).
  set (st1 := built st source fps channels encoding) in *.
  assert (Hrun : run = (Returns (0, Some io_EOF), nuked_store polled_st)).
  { subst run. unfold bind at 1. rewrite builder_run. fold dr st1.
    pose proof (feed_data_eof dr st1 front s' Hsrc) as Hfeed. simpl in Hfeed.
    rewrite (Read_polled rounds dr bytes st1 _ _ _ _ _ Hfeed Hne Hread).
    unfold bind. rewrite (switch_msg_handled _ _ _ _ Hh), produced_run, Hzero.
    destruct (decide (0 > 0)) as [Hpos|_]; [lia|].
    destruct (decide (Some io_EOF = Some io_EOF)) as [_|Hn]; [|destruct Hn; reflexivity].
    reflexivity. }
  rewrite Hrun. split; [reflexivity|]. split.
  - simpl. destruct (noted_quiet msg (polled (asked st1 front (Some io_EOF) s')
                                        (len bytes) msg done h3)) as [E _].
    fold polled_st in E. rewrite E. simpl. rewrite Hzero.
    rewrite <- !List.app_assoc. reflexivity.
  - subst polled_st. destruct msg; reflexivity.
Qed.

End Coverage.

(** ** Statuses turned into errors *)

Section Openers.

Context {H R : Type} {engine : Libmpg123 H} {files : Libmpg123_files H}.

(** [Open], [OpenFile], [OpenFeed], [Close] and [Feed] (of at least one
    byte) all return: no error exactly when the engine's status is OK, and
    otherwise an error that is neither [EOF] nor [io.EOF].  The handle is
    left as the engine left it; [Open] passes the name as C reads it and
    [OpenFile] the descriptor as a C [int]. *)
Theorem status_becomes_error (st : Store H R) (file : string) (fd : Z)
    (buf : list byte) :
  buf <> [] ->
  let h := handle (decoder st) in
  reports (Decoder_Open file st) (mpg123_open h (C_string file))
  /\ reports (Decoder_OpenFile fd st) (mpg123_open_fd h (C_int fd))
  /\ reports (Decoder_OpenFeed st) (mpg123_open_feed h)
  /\ reports (Decoder_Close st) (mpg123_close h)
  /\ reports (Decoder_Feed buf st) (mpg123_feed h buf).
Proof.
  intros Hne h. subst h.
  destruct buf as [|b buf]; [destruct Hne; reflexivity|].
  assert (Hrep : forall (r : mpg123_errors) (h' : H) (st' : Store H R) (msg : string),
            handle (decoder st') = h' ->
            reports (if decide (r <> MPG123_OK)
                     then (Returns (Some (Errorf msg)), st')
                     else (Returns None, st'))
                    (r, h')).
  { intros r h' st' msg Hh. unfold reports.
    destruct (decide (r <> MPG123_OK)) as [Hr|Hr]; eexists;
      (split; [reflexivity|]); simpl.
    - repeat split; try discriminate; try assumption. intros E. destruct (Hr E).
    - repeat split; try discriminate; try assumption.
      intros _. destruct (decide (r = MPG123_OK)); tauto. }
  unfold Decoder_Open, Decoder_OpenFile, Decoder_OpenFeed, Decoder_Close,
    Decoder_Feed, mpg123_error, Decoder_strerror, first_elem, bind, on_handle,
    record, ret.
  repeat split.
  - destruct (mpg123_open _ _) as [r h'] eqn:E. simpl.
    destruct (decide (r <> MPG123_OK)) as [Hr|Hr].
    + pose proof (Hrep r h' {| decoder := {| handle := h' |}; src := src st;
                                calls := calls st |}
                    ("Error opening " +:+ file +:+ ": " +:+ mpg123_strerror h'
                     +:+ String (Ascii.ascii_of_nat 10) "") eq_refl) as Hx.
      destruct (decide (r <> MPG123_OK)); [exact Hx|tauto].
    + pose proof (Hrep r h' {| decoder := {| handle := h' |}; src := src st;
                                calls := calls st |} "" eq_refl) as Hx.
      destruct (decide (r <> MPG123_OK)); [tauto|exact Hx].
  - destruct (mpg123_open_fd _ _) as [r h'] eqn:E. simpl.
    destruct (decide (r <> MPG123_OK)) as [Hr|Hr].
    + pose proof (Hrep r h' {| decoder := {| handle := h' |}; src := src st;
                                calls := calls st |}
                    ("Error attaching file: " +:+ mpg123_strerror h') eq_refl) as Hx.
      destruct (decide (r <> MPG123_OK)); [exact Hx|tauto].
    + pose proof (Hrep r h' {| decoder := {| handle := h' |}; src := src st;
                                calls := calls st |} "" eq_refl) as Hx.
      destruct (decide (r <> MPG123_OK)); [tauto|exact Hx].
  - destruct (mpg123_open_feed _) as [r h'] eqn:E. simpl.
    pose proof (Hrep r h' {| decoder := {| handle := h' |}; src := src st;
                              calls := calls st ++ [call_mpg123_open_feed r] |}
                  ("mpg123 error: " +:+ mpg123_strerror h') eq_refl) as Hx.
    destruct (decide (r <> MPG123_OK)); exact Hx.
  - destruct (mpg123_close _) as [r h'] eqn:E. simpl.
    pose proof (Hrep r h' {| decoder := {| handle := h' |}; src := src st;
                              calls := calls st ++ [call_mpg123_close r] |}
                  ("mpg123 error: " +:+ mpg123_strerror h') eq_refl) as Hx.
    destruct (decide (r <> MPG123_OK)); exact Hx.
  - destruct (mpg123_feed _ _) as [r h'] eqn:E. simpl.
    pose proof (Hrep r h' {| decoder := {| handle := h' |}; src := src st;
                              calls := calls st ++ [call_mpg123_feed (b :: buf) r] |}
                  ("mpg123 error: " +:+ mpg123_strerror h') eq_refl) as Hx.
    destruct (decide (r <> MPG123_OK)); exact Hx.
Qed.

End Openers.


(** ** Further runs on the test doubles *)

Lemma Read_empty_chunk_panics_witness :
  let st := fake_store engine_pending idle in
  io_Read (src st) (64 * 1024) = ([], None, [])
  /\ DecoderReader_Read 1 (reader false) four_bytes st
     = (Panics "runtime error: index out of range [0] with length 0",
        asked st [] None []).
Proof.
  split; [reflexivity|].
  exact (Read_empty_chunk_panics (engine:=fake_Libmpg123) (upstream:=script_Reader)
           0 (reader false) four_bytes (fake_store engine_pending idle) [] eq_refl).
Defined.

Lemma Read_polls_again_witness :
  let st := fake_store engine_slow two_chunks in
  exists err st1 h',
    feed_data (reader false) st = (Returns (inr err), st1)
    /\ four_bytes <> []
    /\ mpg123_read (handle (decoder st1)) (C_size_t (len four_bytes))
       = (MPG123_NEED_MORE, 0, h')
    /\ err <> Some io_EOF
    /\ DecoderReader_Read 2 (reader false) four_bytes st
       = DecoderReader_Read 1 (reader false) four_bytes
           (noted MPG123_NEED_MORE (polled st1 (len four_bytes) MPG123_NEED_MORE 0 h'))
    /\ fst (DecoderReader_Read 2 (reader false) four_bytes st) = Returns (4, None).
Proof.
  eexists. eexists. eexists.
  split; [reflexivity|]. split; [discriminate|]. split; [reflexivity|].
  split; [discriminate|]. split; [|reflexivity].
  exact (Read_polls_again (engine:=fake_Libmpg123) (upstream:=script_Reader)
           1 (reader false) four_bytes (fake_store engine_slow two_chunks)
           _ _ MPG123_NEED_MORE 0 _ eq_refl ltac:(discriminate) eq_refl eq_refl
           eq_refl ltac:(discriminate)).
Defined.

Lemma Read_paranoid_tears_down_again_witness :
  let st := fake_store engine_pending drained in
  let dr := Paranoid (reader false) in
  let second := DecoderReader_Read 1 dr four_bytes
                  (snd (DecoderReader_Read 1 dr four_bytes st)) in
  paranoid dr = true
  /\ fst second = Returns (0, Some io_EOF)
  /\ handle (decoder (snd second)) = nuked (nuked engine_pending)
  /\ deletes (handle (decoder (snd second))) = 2%nat.
Proof.
  split; [reflexivity|].
  destruct (Read_paranoid_tears_down_again (engine:=fake_Libmpg123)
              (upstream:=script_Reader) 0 0 (Paranoid (reader false))
              four_bytes four_bytes (fake_store engine_pending drained)
              [] [] [] [] eq_refl eq_refl eq_refl)
    as [_ [Hsecond [_ Hhandle]]].
  split; [exact Hsecond|]. split; [exact Hhandle|]. rewrite Hhandle. reflexivity.
Defined.

Lemma round_same_while_upstream_succeeds_witness :
  let st := fake_store engine_pending one_chunk in
  io_Read (src st) (64 * 1024) = (["I"; "D"; "3"]%byte, None, [])
  /\ round (reader false) four_bytes st = round (Paranoid (reader false)) four_bytes st.
Proof.
  split; [reflexivity|].
  exact (round_same_while_upstream_succeeds (engine:=fake_Libmpg123)
           (upstream:=script_Reader) (reader false) (Paranoid (reader false))
           four_bytes (fake_store engine_pending one_chunk) _ _ eq_refl).
Defined.

Lemma status_becomes_error_witness :
  let st := fake_store engine_refusing drained in
  four_bytes <> []
  /\ reports (Decoder_Open "" st) (MPG123_ERR (-1), engine_refusing)
  /\ reports (Decoder_OpenFile 3 st) (MPG123_OK, engine_refusing)
  /\ fst (Decoder_Feed four_bytes st)
     = Returns (Some (Errorf "mpg123 error: fake engine: refused")).
Proof.
  split; [discriminate|].
  destruct (status_becomes_error (engine:=fake_Libmpg123) (files:=fake_Libmpg123_files)
              (fake_store engine_refusing drained) "" 3 four_bytes
              ltac:(discriminate))
    as [Hopen [Hfile _]].
  split; [exact Hopen|]. split; [exact Hfile|reflexivity].
Defined.

Lemma round_drops_bytes_on_error_witness :
  let st := fake_store engine_empty last_bytes in
  let run := round (reader false) four_bytes st in
  io_Read (src st) (64 * 1024) = (["T"; "A"; "G"]%byte, Some io_EOF, [])
  /\ (exists more,
        calls (snd run) = calls st ++ call_src_Read (64 * 1024) 3 (Some io_EOF) :: more
        /\ forallb (polling_call four_bytes) more = true)
  /\ fed (handle (decoder (snd run))) = []
  /\ fst run = Returns (Some (0, Some io_EOF)).
Proof.
  split; [reflexivity|]. split; [|split; reflexivity].
  exact (round_drops_bytes_on_error (engine:=fake_Libmpg123) (upstream:=script_Reader)
           (reader false) four_bytes (fake_store engine_empty last_bytes)
           ["T"; "A"; "G"]%byte io_EOF [] eq_refl).
Defined.

Lemma Read_count_or_error_witness :
  let run := DecoderReader_Read 2 (reader false) four_bytes
               (fake_store engine_slow two_chunks) in
  run = (Returns (4, None), snd run)
  /\ ((None : option error) = None <-> 4 <> 0).
Proof.
  assert (Hrun : DecoderReader_Read 2 (reader false) four_bytes
                   (fake_store engine_slow two_chunks)
                 = (Returns (4, None),
                    snd (DecoderReader_Read 2 (reader false) four_bytes
                           (fake_store engine_slow two_chunks))))
    by (vm_compute; reflexivity).
  split; [exact Hrun|].
  exact (Read_count_or_error (engine:=fake_Libmpg123) (upstream:=script_Reader)
           2 (reader false) four_bytes (fake_store engine_slow two_chunks)
           4 None _ Hrun).
Defined.

Lemma Read_data_keeps_handle_witness :
  let st := fake_store engine_slow two_chunks in
  let run := DecoderReader_Read 2 (reader false) four_bytes st in
  run = (Returns (4, None), snd run)
  /\ (exists more, calls (snd run) = calls st ++ more /\ forallb quiet more = true)
  /\ closes (handle (decoder (snd run))) = 0%nat
  /\ deletes (handle (decoder (snd run))) = 0%nat.
Proof.
  assert (Hrun : DecoderReader_Read 2 (reader false) four_bytes
                   (fake_store engine_slow two_chunks)
                 = (Returns (4, None),
                    snd (DecoderReader_Read 2 (reader false) four_bytes
                           (fake_store engine_slow two_chunks))))
    by (vm_compute; reflexivity).
  split; [exact Hrun|]. split; [|split; vm_compute; reflexivity].
  exact (Read_data_keeps_handle (engine:=fake_Libmpg123) (upstream:=script_Reader)
           2 (reader false) four_bytes (fake_store engine_slow two_chunks)
           4 _ Hrun).
Defined.

Lemma Read_error_origin_witness :
  let st := fake_store engine_pending broken in
  let e := Errorf "connection reset by peer" in
  exists st',
    DecoderReader_Read 1 (reader false) four_bytes st = (Returns (0, Some e), st')
    /\ (e = io_EOF
        \/ exists more k,
             calls st' = calls st ++ more
             /\ In (call_src_Read (64 * 1024) k (Some e)) more).
Proof.
  eexists. split; [reflexivity|].
  exact (Read_error_origin (engine:=fake_Libmpg123) (upstream:=script_Reader)
           1 (reader false) four_bytes (fake_store engine_pending broken)
           0 (Errorf "connection reset by peer") _ eq_refl).
Defined.

Lemma first_Read_of_empty_input_witness :
  let st := fake_store engine_empty one_chunk in
  let run := (dr <- Decoder_DecoderReader drained 44100 1 208 ;;
              DecoderReader_Read 1 dr four_bytes) st in
  io_Read drained (64 * 1024) = ([], Some io_EOF, [])
  /\ four_bytes <> []
  /\ fst run = Returns (0, Some io_EOF)
  /\ calls (snd run)
     = [call_mpg123_format_none; call_mpg123_format 44100 1 208;
        call_src_Read 65536 0 (Some io_EOF); call_mpg123_read 4 MPG123_DONE 0;
        call_mpg123_close MPG123_OK; call_mpg123_delete].
Proof.
  split; [reflexivity|]. split; [discriminate|].
  destruct (first_Read_of_empty_input (engine:=fake_Libmpg123) (upstream:=script_Reader)
              drained 44100 1 208 0 four_bytes (fake_store engine_empty one_chunk)
              [] [] MPG123_DONE 0 _ eq_refl ltac:(discriminate) eq_refl eq_refl eq_refl)
    as [Hrun [Hcalls _]].
  split; [exact Hrun|exact Hcalls].
Defined.
